(** * Sqwad landing site: content schema, agent page sections and agent listing

    The development follows the TypeScript sources of the site:
    - [src/content/config.ts]: the Zod schemas of the [agents] data collection;
    - [src/lib/types.ts]: the interfaces shared by the components;
    - [src/lib/constants.ts]: [AGENT_PLACEHOLDER_IMAGE] and [AGENTS_LIST];
    - [src/components/sections/agent/index.ts]: the barrel export of the
      ten agent page sections.

    Content entries are JavaScript values as produced by [JSON.parse]; a Zod
    schema is a value of type [schema] and parsing is the function [parse]. *)

From Stdlib Require Import List String Bool Arith Lia QArith Permutation Sorted.
Import ListNotations.
Close Scope Q_scope.
Open Scope string_scope.
Open Scope list_scope.

(** ** JavaScript values *)

Module JS.

(** The values a content entry is made of.  [VUndef] is JavaScript's
    [undefined]: it is what reading an absent property gives.  A number
    carries the rational that a JSON numeric literal denotes. *)
Unset Elimination Schemes.
Inductive value : Type :=
| VUndef
| VNull
| VBool (b : bool)
| VNum (q : Q)
| VStr (s : string)
| VArr (items : list value)
| VObj (props : list (string * value)).
Set Elimination Schemes.

Section ValueInd.
Variable P : value -> Prop.
Hypothesis Hundef : P VUndef.
Hypothesis Hnull : P VNull.
Hypothesis Hbool : forall b, P (VBool b).
Hypothesis Hnum : forall q, P (VNum q).
Hypothesis Hstr : forall s, P (VStr s).
Hypothesis Harr : forall items, Forall P items -> P (VArr items).
Hypothesis Hobj : forall props, Forall (fun kv => P (snd kv)) props -> P (VObj props).

Fixpoint value_ind (v : value) : P v :=
  match v with
  | VUndef => Hundef
  | VNull => Hnull
  | VBool b => Hbool b
  | VNum q => Hnum q
  | VStr s => Hstr s
  | VArr items =>
      Harr items
        ((fix go (l : list value) : Forall P l :=
            match l with
            | [] => Forall_nil P
            | x :: l' => Forall_cons x (value_ind x) (go l')
            end) items)
  | VObj props =>
      Hobj props
        ((fix go (l : list (string * value)) : Forall (fun kv => P (snd kv)) l :=
            match l with
            | [] => Forall_nil _
            | kv :: l' => Forall_cons kv (value_ind (snd kv)) (go l')
            end) props)
  end.
End ValueInd.

(** [obj[k]]: the first binding of [k], [undefined] when there is none. *)
Fixpoint get (k : string) (props : list (string * value)) : value :=
  match props with
  | [] => VUndef
  | (k', v) :: rest => if String.eqb k k' then v else get k rest
  end.

(** [k in obj]. *)
Fixpoint has (k : string) (props : list (string * value)) : bool :=
  match props with
  | [] => false
  | (k', _) :: rest => String.eqb k k' || has k rest
  end.

(** [delete obj[k]]. *)
Definition del (k : string) (props : list (string * value)) : list (string * value) :=
  filter (fun kv => negb (String.eqb k (fst kv))) props.

Definition is_undef (v : value) : bool :=
  match v with VUndef => true | _ => false end.

End JS.
Import JS.

(** ** Zod *)

Module Zod.

(** The schema combinators that [config.ts] uses. *)
Unset Elimination Schemes.
Inductive schema : Type :=
| ZString
| ZNumber
| ZBoolean
| ZArray (item : schema)
| ZObject (shape : list (string * schema))
| ZOptional (inner : schema)
| ZDefault (inner : schema) (dflt : value).
Set Elimination Schemes.

(** All results, or nothing as soon as one is missing. *)
Fixpoint all_some {A : Type} (l : list (option A)) : option (list A) :=
  match l with
  | [] => Some []
  | None :: _ => None
  | Some x :: rest =>
      match all_some rest with
      | Some xs => Some (x :: xs)
      | None => None
      end
  end.

(** An object keeps the parsed value of a shape key when that value is
    defined or when the key was present in the input. *)
Definition keep (props : list (string * value)) (kv : string * value) : bool :=
  negb (is_undef (snd kv)) || has (fst kv) props.

(** One key of an object shape: parses [props[k]] with the schema of [k]. *)
Definition parse_field (parse : schema -> value -> option value)
    (props : list (string * value)) (ks : string * schema) : option (string * value) :=
  let (k, sk) := ks in option_map (pair k) (parse sk (get k props)).

(** [schema.safeParse(x)]: [Some] of the parsed data, [None] for a
    [ZodError].
    - [z.string()], [z.number()], [z.boolean()] accept exactly the values of
      that primitive type;
    - [z.array(item)] accepts an array all of whose items parse;
    - [z.object(shape)] accepts an object, parses [x[k]] for every key [k] of
      the shape and drops every other key (the default, "strip");
    - [.optional()] lets [undefined] through;
    - [.default(d)] replaces [undefined] by [d] before parsing. *)
Fixpoint parse (s : schema) (x : value) : option value :=
  match s with
  | ZString => match x with VStr _ => Some x | _ => None end
  | ZNumber => match x with VNum _ => Some x | _ => None end
  | ZBoolean => match x with VBool _ => Some x | _ => None end
  | ZArray item =>
      match x with
      | VArr items => option_map VArr (all_some (map (parse item) items))
      | _ => None
      end
  | ZObject shape =>
      match x with
      | VObj props =>
          option_map (fun fields => VObj (filter (keep props) fields))
            (all_some (map (parse_field parse props) shape))
      | _ => None
      end
  | ZOptional inner =>
      match x with
      | VUndef => Some VUndef
      | _ => parse inner x
      end
  | ZDefault inner dflt =>
      match x with
      | VUndef => parse inner dflt
      | _ => parse inner x
      end
  end.

(** The schema of a shape key (first binding). *)
Fixpoint shape_get (k : string) (shape : list (string * schema)) : option schema :=
  match shape with
  | [] => None
  | (k', s) :: rest => if String.eqb k k' then Some s else shape_get k rest
  end.

(** What makes a value unacceptable to a schema: a value of the wrong
    primitive type (an absent one is [undefined], of no accepted type), a
    value that is not an array or not an object where one is expected, a
    defective item of an array, a defective field of an object.
    [.optional()] and [.default(..)] excuse [undefined] only. *)
Inductive defect : schema -> value -> Prop :=
| defect_string v : (forall s, v <> VStr s) -> defect ZString v
| defect_number v : (forall q, v <> VNum q) -> defect ZNumber v
| defect_boolean v : (forall b, v <> VBool b) -> defect ZBoolean v
| defect_not_array item v : (forall items, v <> VArr items) -> defect (ZArray item) v
| defect_item item items x :
    In x items -> defect item x -> defect (ZArray item) (VArr items)
| defect_not_object shape v : (forall props, v <> VObj props) -> defect (ZObject shape) v
| defect_field shape props k sk :
    In (k, sk) shape -> defect sk (get k props) -> defect (ZObject shape) (VObj props)
| defect_optional inner v : v <> VUndef -> defect inner v -> defect (ZOptional inner) v
| defect_default inner dflt v : v <> VUndef -> defect inner v -> defect (ZDefault inner dflt) v.

End Zod.
Import Zod.

(** ** Induction on schemas, well-formed schemas *)

Module Wf.

Section SchemaInd.
Variable P : schema -> Prop.
Hypothesis Hstring : P ZString.
Hypothesis Hnumber : P ZNumber.
Hypothesis Hboolean : P ZBoolean.
Hypothesis Harray : forall item, P item -> P (ZArray item).
Hypothesis Hobject : forall shape, Forall (fun ks => P (snd ks)) shape -> P (ZObject shape).
Hypothesis Hoptional : forall inner, P inner -> P (ZOptional inner).
Hypothesis Hdefault : forall inner dflt, P inner -> P (ZDefault inner dflt).

Fixpoint schema_ind (s : schema) : P s :=
  match s with
  | ZString => Hstring
  | ZNumber => Hnumber
  | ZBoolean => Hboolean
  | ZArray item => Harray item (schema_ind item)
  | ZObject shape =>
      Hobject shape
        ((fix go (l : list (string * schema)) : Forall (fun ks => P (snd ks)) l :=
            match l with
            | [] => Forall_nil _
            | ks :: l' => Forall_cons ks (schema_ind (snd ks)) (go l')
            end) shape)
  | ZOptional inner => Hoptional inner (schema_ind inner)
  | ZDefault inner dflt => Hdefault inner dflt (schema_ind inner)
  end.
End SchemaInd.

(** No key twice. *)
Fixpoint distinct (keys : list string) : bool :=
  match keys with
  | [] => true
  | k :: rest => negb (existsb (String.eqb k) rest) && distinct rest
  end.

Definition is_some {A : Type} (o : option A) : bool :=
  match o with Some _ => true | None => false end.

(** A schema as an object literal and a sensible [.default(..)] make it:
    the keys of a shape are distinct, a default is accepted by the schema
    it is the default of, and that schema does not accept [undefined]
    itself. *)
Fixpoint wf (s : schema) : bool :=
  match s with
  | ZString | ZNumber | ZBoolean => true
  | ZArray item => wf item
  | ZObject shape =>
      distinct (map fst shape) && forallb (fun ks => wf (snd ks)) shape
  | ZOptional inner => wf inner
  | ZDefault inner dflt =>
      wf inner && is_some (parse inner dflt) && negb (is_some (parse inner VUndef))
  end.

(** Strings, numbers, booleans, arrays of them, optional or not: a schema
    with no [z.object] and no [.default(..)] in it. *)
Fixpoint plain (s : schema) : bool :=
  match s with
  | ZString | ZNumber | ZBoolean => true
  | ZArray item => plain item
  | ZObject _ => false
  | ZOptional inner => plain inner
  | ZDefault _ _ => false
  end.

(** A plain schema, or a plain schema with a default. *)
Definition flat (s : schema) : bool :=
  match s with
  | ZDefault inner _ => plain inner
  | _ => plain s
  end.

(** No [null] anywhere in the value. *)
Fixpoint null_free (v : value) : bool :=
  match v with
  | VNull => false
  | VArr items => forallb null_free items
  | VObj props => forallb (fun kv => null_free (snd kv)) props
  | _ => true
  end.

(** Whether the field of a shape key shows in the parsed object: the key is
    in the input, or the schema of the key makes a value out of
    [undefined]. *)
Definition shows (props : list (string * value)) (ks : string * schema) : bool :=
  has (fst ks) props ||
  match parse (snd ks) VUndef with
  | Some VUndef => false
  | _ => true
  end.

End Wf.
Import Wf.

(** ** [src/content/config.ts] *)

Module Config.

(** Schema for agent skills *)
Definition skillSchema : schema :=
  ZObject [("name", ZString); ("description", ZString)].

(** Schema for use cases *)
Definition useCaseSchema : schema :=
  ZObject [("title", ZString); ("description", ZString)].

(** Schema for code examples *)
Definition codeExampleSchema : schema :=
  ZObject [("title", ZString); ("code", ZString);
           ("lang", ZDefault ZString (VStr "bash"))].

Inductive collection_type : Type := content | data.

Record collection : Type := defineCollection
  { type : collection_type; schema : Zod.schema }.

(** The shape of the [agents] schema, in the order of the source. *)
Definition agentShape : list (string * Zod.schema) :=
  [ (* Basic info *)
    ("name", ZString);
    ("slug", ZString);
    ("tagline", ZString);
    ("description", ZString);
    (* Visual *)
    ("accentColor", ZString);
    ("emoji", ZOptional ZString);
    (* Content *)
    ("about", ZArray ZString);
    ("specialties", ZArray ZString);
    ("skills", ZArray skillSchema);
    ("useCases", ZArray useCaseSchema);
    ("codeExamples", ZArray codeExampleSchema);
    (* Do's and Don'ts *)
    ("does", ZArray ZString);
    ("doesNot", ZArray ZString);
    (* Configuration *)
    ("mcpTools", ZOptional (ZArray ZString));
    (* Philosophy *)
    ("philosophy",
      ZObject [("quote", ZString); ("explanation", ZArray ZString)]);
    (* Meta *)
    ("draft", ZDefault ZBoolean (VBool false));
    ("order", ZDefault ZNumber (VNum (999 # 1))) ].

(** Agents collection - Data about each AI agent *)
Definition agents : collection :=
  defineCollection data (ZObject agentShape).

Definition collections : list (string * collection) := [("agents", agents)].

(** The gate every entry of the collection goes through when the site is
    built: the entry is parsed with the schema of the collection. *)
Definition validate (rawEntry : value) : option value :=
  parse (schema agents) rawEntry.

(** Loading the collection validates each entry on its own; one invalid
    entry aborts the build. *)
Definition loadCollection (c : collection) (entries : list value) : option (list value) :=
  all_some (map (parse (schema c)) entries).

(** The keys a schema of the collection knows. *)
Definition agentKeys : list string := map fst agentShape.

(** [entry.slug] *)
Definition slugOf (entry : value) : value :=
  match entry with VObj props => get "slug" props | _ => VUndef end.

(** The part of an entry made of the keys of the schema. *)
Definition knownPart (props : list (string * value)) : list (string * value) :=
  filter (fun kv => existsb (String.eqb (fst kv)) agentKeys) props.

(** The keys whose schema is [.optional()]. *)
Definition optionalKeys : list string := ["emoji"; "mcpTools"].

(** The keys whose schema has no object in it: strings, arrays of strings,
    the boolean and the number. *)
Definition flatKeys : list string :=
  ["name"; "slug"; "tagline"; "description"; "accentColor"; "emoji"; "about";
   "specialties"; "does"; "doesNot"; "mcpTools"; "draft"; "order"].

(** The keys whose schema is an array of objects, with the schema of the
    items. *)
Definition itemSchemas : list (string * Zod.schema) :=
  [("skills", skillSchema); ("useCases", useCaseSchema);
   ("codeExamples", codeExampleSchema)].

(** The keys that are neither [.optional()] nor [.default(..)]. *)
Definition requiredKeys : list string :=
  ["name"; "slug"; "tagline"; "description"; "accentColor"; "about";
   "specialties"; "skills"; "useCases"; "codeExamples"; "does"; "doesNot";
   "philosophy"].

End Config.
Import Config.

(** ** [src/lib/types.ts] *)

(** Agent card data for listing page *)
Module AgentCardData.
Record t : Type := mk
  { name : string;
    slug : string;
    tagline : string;
    specialty : string;
    image : string;
    accentColor : string }.
End AgentCardData.

(** Skill definition *)
Module Skill.
Record t : Type := mk { name : string; description : string }.
End Skill.

(** Use case definition *)
Module UseCase.
Record t : Type := mk { title : string; description : string }.
End UseCase.

(** Code example definition; [lang] is the optional property [lang?]. *)
Module CodeExample.
Record t : Type := mk { title : string; code : string; lang : option string }.
End CodeExample.

(** Philosophy section data *)
Module Philosophy.
Record t : Type := mk { quote : string; explanation : list string }.
End Philosophy.

(** The data of an entry of the [agents] collection, as TypeScript types it
    from the schema: optional keys are options, keys with a default are
    plain. *)
Module AgentRecord.
Record t : Type := mk
  { name : string;
    slug : string;
    tagline : string;
    description : string;
    accentColor : string;
    emoji : option string;
    about : list string;
    specialties : list string;
    skills : list Skill.t;
    useCases : list UseCase.t;
    codeExamples : list CodeExample.t;
    does : list string;
    doesNot : list string;
    mcpTools : option (list string);
    philosophy : Philosophy.t;
    draft : bool;
    order : Q }.
End AgentRecord.

(** Reading a parsed value at its static type.  Nothing is defaulted or
    repaired here: a value that is not of the type reads as [None]. *)
Module Typed.

Definition as_string (v : value) : option string :=
  match v with VStr s => Some s | _ => None end.

Definition as_boolean (v : value) : option bool :=
  match v with VBool b => Some b | _ => None end.

Definition as_number (v : value) : option Q :=
  match v with VNum q => Some q | _ => None end.

Definition as_array {A : Type} (f : value -> option A) (v : value) : option (list A) :=
  match v with VArr items => all_some (map f items) | _ => None end.

Definition as_optional {A : Type} (f : value -> option A) (v : value) : option (option A) :=
  match v with VUndef => Some None | _ => option_map Some (f v) end.

Definition as_skill (v : value) : option Skill.t :=
  match v with
  | VObj p =>
      match as_string (get "name" p), as_string (get "description" p) with
      | Some n, Some d => Some (Skill.mk n d)
      | _, _ => None
      end
  | _ => None
  end.

Definition as_useCase (v : value) : option UseCase.t :=
  match v with
  | VObj p =>
      match as_string (get "title" p), as_string (get "description" p) with
      | Some t, Some d => Some (UseCase.mk t d)
      | _, _ => None
      end
  | _ => None
  end.

Definition as_codeExample (v : value) : option CodeExample.t :=
  match v with
  | VObj p =>
      match as_string (get "title" p), as_string (get "code" p),
            as_optional as_string (get "lang" p) with
      | Some t, Some c, Some l => Some (CodeExample.mk t c l)
      | _, _, _ => None
      end
  | _ => None
  end.

Definition as_philosophy (v : value) : option Philosophy.t :=
  match v with
  | VObj p =>
      match as_string (get "quote" p),
            as_array as_string (get "explanation" p) with
      | Some q, Some e => Some (Philosophy.mk q e)
      | _, _ => None
      end
  | _ => None
  end.

Definition bind {A B : Type} (o : option A) (f : A -> option B) : option B :=
  match o with Some a => f a | None => None end.

Notation "x <- o ;; k" := (bind o (fun x => k))
  (at level 61, o at next level, right associativity).

Definition to_record (v : value) : option AgentRecord.t :=
  match v with
  | VObj p =>
      name <- as_string (get "name" p) ;;
      slug <- as_string (get "slug" p) ;;
      tagline <- as_string (get "tagline" p) ;;
      description <- as_string (get "description" p) ;;
      accentColor <- as_string (get "accentColor" p) ;;
      emoji <- as_optional as_string (get "emoji" p) ;;
      about <- as_array as_string (get "about" p) ;;
      specialties <- as_array as_string (get "specialties" p) ;;
      skills <- as_array as_skill (get "skills" p) ;;
      useCases <- as_array as_useCase (get "useCases" p) ;;
      codeExamples <- as_array as_codeExample (get "codeExamples" p) ;;
      does <- as_array as_string (get "does" p) ;;
      doesNot <- as_array as_string (get "doesNot" p) ;;
      mcpTools <- as_optional (as_array as_string) (get "mcpTools" p) ;;
      philosophy <- as_philosophy (get "philosophy" p) ;;
      draft <- as_boolean (get "draft" p) ;;
      order <- as_number (get "order" p) ;;
      Some (AgentRecord.mk name slug tagline description accentColor emoji
              about specialties skills useCases codeExamples does doesNot
              mcpTools philosophy draft order)
  | _ => None
  end.

End Typed.
Import Typed.

(** ** [src/lib/constants.ts] *)

(** The type of the [SITE] constant. *)
Module Site.
Record t : Type := mk { name : string; description : string; url : string }.
End Site.

Module Constants.

(** Site metadata.  [env] is [import.meta.env.SITE]: [None] when it is
    [undefined].  [a || b] is [b] when [a] is [undefined] or the empty
    string. *)
Definition SITE (env : option string) : Site.t :=
  Site.mk
    "Sqwad"
    "Collection open source d'agents Claude Code ultra-spécialisés"
    (match env with
     | Some EmptyString | None => "https://sqwad.dev"
     | Some s => s
     end).

(** Default placeholder image for agents *)
Definition AGENT_PLACEHOLDER_IMAGE : string := "/images/agent-placeholder.png".

(** All agents data for listing page *)
Definition AGENTS_LIST : list AgentCardData.t :=
  [ AgentCardData.mk
      "Marco Astro"
      "marco-astro"
      "Le meilleur JavaScript, c'est celui qu'on n'envoie pas au client."
      "Astro & Sites Statiques"
      AGENT_PLACEHOLDER_IMAGE
      "#f97316";
    AgentCardData.mk
      "Marco Tailwind"
      "marco-tailwind"
      "Pixel-perfect, responsive, et maintenable. Toujours."
      "CSS & Tailwind"
      AGENT_PLACEHOLDER_IMAGE
      "#ef4444";
    AgentCardData.mk
      "Marco Angular"
      "marco-angular"
      "Enterprise-ready applications avec architecture solide."
      "Angular"
      AGENT_PLACEHOLDER_IMAGE
      "#dc2626";
    AgentCardData.mk
      "Nova AI"
      "nova-ai"
      "Intelligence artificielle et machine learning intégrés."
      "IA & ML"
      AGENT_PLACEHOLDER_IMAGE
      "#8b5cf6";
    AgentCardData.mk
      "Bruno Backend"
      "bruno-backend"
      "APIs robustes, scalables et sécurisées."
      "Backend & APIs"
      AGENT_PLACEHOLDER_IMAGE
      "#059669";
    AgentCardData.mk
      "Kira DevOps"
      "kira-devops"
      "CI/CD, infrastructure as code, et déploiement continu."
      "DevOps & CI/CD"
      AGENT_PLACEHOLDER_IMAGE
      "#0891b2";
    AgentCardData.mk
      "Shadow Security"
      "shadow-security"
      "Sécurité applicative et protection des données."
      "Sécurité"
      AGENT_PLACEHOLDER_IMAGE
      "#374151";
    AgentCardData.mk
      "Flash Perf"
      "flash-perf"
      "Optimisation et performance à tous les niveaux."
      "Performance"
      AGENT_PLACEHOLDER_IMAGE
      "#eab308" ].

End Constants.
Import Constants.

(** ** [src/components/sections/agent/index.ts] *)

Module Sections.

(** Barrel export for agent section components, in the order of the file. *)
Inductive component : Type :=
| AgentHero
| AgentAbout
| AgentSpecialties
| AgentSkills
| AgentUseCases
| AgentExamples
| AgentDosDonts
| AgentConfig
| AgentPhilosophy
| AgentCTA.

Definition exports : list component :=
  [AgentHero; AgentAbout; AgentSpecialties; AgentSkills; AgentUseCases;
   AgentExamples; AgentDosDonts; AgentConfig; AgentPhilosophy; AgentCTA].

Definition is_config (c : component) : bool :=
  match c with AgentConfig => true | _ => false end.

End Sections.
Import Sections.

(** ** The agent page *)

Module Page.

(** Modelled from the spec: the section components ([AgentHero.astro] ...
    [AgentCTA.astro]) are not among the sources, only their barrel export is.
    A rendered section is the component with the slice of the record it
    receives (section 4.2 of the specification; the props are those the
    project notes list for each component). *)
Inductive section : Type :=
| Hero (name tagline accentColor : string)
| About (title : string) (paragraphs : list string)
| Specialties (specialties : list string)
| Skills (skills : list Skill.t) (accentColor : string)
| UseCases (useCases : list UseCase.t) (agentName : string)
| Examples (examples : list CodeExample.t)
| DosDonts (does doesNot : list string) (agentName : string)
| Config (mcpTools : list string)
| PhilosophySection (philosophy : Philosophy.t) (accentColor : string)
| CTA (agentName : string) (githubUrl : option string).

(** The component that renders a section. *)
Definition component_of (s : section) : component :=
  match s with
  | Hero _ _ _ => AgentHero
  | About _ _ => AgentAbout
  | Specialties _ => AgentSpecialties
  | Skills _ _ => AgentSkills
  | UseCases _ _ => AgentUseCases
  | Examples _ => AgentExamples
  | DosDonts _ _ _ => AgentDosDonts
  | Config _ => AgentConfig
  | PhilosophySection _ _ => AgentPhilosophy
  | CTA _ _ => AgentCTA
  end.

(** The number of items a section lists; a shell is a section with none. *)
Definition itemCount (s : section) : nat :=
  match s with
  | Hero _ _ _ => 1
  | About _ ps => List.length ps
  | Specialties l => List.length l
  | Skills l _ => List.length l
  | UseCases l _ => List.length l
  | Examples l => List.length l
  | DosDonts d n _ => List.length d + List.length n
  | Config l => List.length l
  | PhilosophySection p _ => S (List.length (Philosophy.explanation p))
  | CTA _ _ => 1
  end.

(** [mcpTools] is present and not empty. *)
Definition has_mcpTools (record : AgentRecord.t) : bool :=
  match AgentRecord.mcpTools record with
  | Some (_ :: _) => true
  | _ => false
  end.

(** Modelled from the spec: the page that composes the sections
    ([src/pages/agents/marco-astro.astro]) is not among the sources.
    [assemble(record) -> Document] of section 4.2: the sections in the fixed
    order Hero, About, Specialties, Skills, UseCases, Examples, DosDonts,
    Config, Philosophy, CTA; Config only if [mcpTools] is present and
    non-empty; every other section always. *)
Definition assemble (record : AgentRecord.t) : list section :=
  let name := AgentRecord.name record in
  let accent := AgentRecord.accentColor record in
  [ Hero name (AgentRecord.tagline record) accent;
    About ("Qui est " ++ name ++ " ?")%string (AgentRecord.about record);
    Specialties (AgentRecord.specialties record);
    Skills (AgentRecord.skills record) accent;
    UseCases (AgentRecord.useCases record) name;
    Examples (AgentRecord.codeExamples record);
    DosDonts (AgentRecord.does record) (AgentRecord.doesNot record) name ]
  ++ match AgentRecord.mcpTools record with
     | Some (tool :: tools) => [Config (tool :: tools)]
     | _ => []
     end
  ++ [ PhilosophySection (AgentRecord.philosophy record) accent;
       CTA name None ].

End Page.
Import Page.

(** ** The agent listing *)

Module Listing.

(** Keeps the results that are there, in order. *)
Fixpoint choose {A B : Type} (f : A -> option B) (l : list A) : list B :=
  match l with
  | [] => []
  | x :: rest =>
      match f x with
      | Some y => y :: choose f rest
      | None => choose f rest
      end
  end.

(** [a.order <= b.order] *)
Definition order_leb (a b : AgentRecord.t) : bool :=
  Qle_bool (AgentRecord.order a) (AgentRecord.order b).

(** Modelled from the spec: the step of the sort below.  Puts [r] in front
    of the first record whose [order] is not smaller, so in front of the
    records of its own [order]. *)
Fixpoint insert (r : AgentRecord.t) (l : list AgentRecord.t) : list AgentRecord.t :=
  match l with
  | [] => [r]
  | x :: rest => if order_leb r x then r :: l else x :: insert r rest
  end.

(** Modelled from the spec: no sort of records is among the sources.
    Ascending by [order], ties in source order (section 4.3). *)
Fixpoint sortByOrder (l : list AgentRecord.t) : list AgentRecord.t :=
  match l with
  | [] => []
  | r :: rest => insert r (sortByOrder rest)
  end.

(** The same comparison as a proposition. *)
Definition order_le (a b : AgentRecord.t) : Prop :=
  (AgentRecord.order a <= AgentRecord.order b)%Q.


(** Modelled from the spec: no filter on [draft] is among the sources.
    Section 4.3: filters out the records with [draft = true]. *)
Definition published (allRecords : list AgentRecord.t) : list AgentRecord.t :=
  filter (fun r => negb (AgentRecord.draft r)) allRecords.

Section Projection.

(** The specification names the card's [image] and [specialty] but not
    where a record holds them (the schema has neither key), nor when a
    projection fails: both are left open here.  [imageOf r = None] is a
    missing image; [specialtyOf r = None] is a projection that fails. *)
Variable imageOf : AgentRecord.t -> option string.
Variable specialtyOf : AgentRecord.t -> option string.

(** Modelled from the spec: no projection of a record to [AgentCardData] is
    among the sources.  Section 4.3: the record's own name, slug, tagline
    and accent colour; a missing image falls back to the placeholder. *)
Definition project (r : AgentRecord.t) : option AgentCardData.t :=
  match specialtyOf r with
  | Some sp =>
      Some (AgentCardData.mk
              (AgentRecord.name r) (AgentRecord.slug r) (AgentRecord.tagline r)
              sp
              (match imageOf r with
               | Some img => img
               | None => AGENT_PLACEHOLDER_IMAGE
               end)
              (AgentRecord.accentColor r))
  | None => None
  end.

(** The projection of [r] does not fail. *)
Definition projectable (r : AgentRecord.t) : bool :=
  match project r with Some _ => true | None => false end.

(** Modelled from the spec: [listAgents] is not among the sources (the
    listing page reads the constant [AGENTS_LIST]).  Section 4.3: filter out
    the drafts, sort by [order], project each surviving record and skip one
    whose projection fails. *)
Definition listAgents (allRecords : list AgentRecord.t) : list AgentCardData.t :=
  choose project (sortByOrder (published allRecords)).

End Projection.

End Listing.
Import Listing.

(** ** Sample entries *)

Module Samples.

Definition strings (l : list string) : value := VArr (map VStr l).

(** An entry in the shape of [src/content/agents/marco-astro.json]: no
    [emoji], [mcpTools], [draft] or [order]; the first code example has no
    [lang]. *)
Definition marcoAstro : list (string * value) :=
  [ ("name", VStr "Marco Astro");
    ("slug", VStr "marco-astro");
    ("tagline",
      VStr "Le meilleur JavaScript, c'est celui qu'on n'envoie pas au client.");
    ("description", VStr "Astro & Sites Statiques");
    ("accentColor", VStr "#f97316");
    ("about", strings ["Marco est un raton laveur orange."]);
    ("specialties", strings ["Astro"; "SSG"; "SEO"]);
    ("skills",
      VArr [ VObj [("name", VStr "astro-conventions");
                   ("description", VStr "Conventions Astro")];
             VObj [("name", VStr "clean-code");
                   ("description", VStr "Clean code")] ]);
    ("useCases",
      VArr [ VObj [("title", VStr "Sites vitrine");
                   ("description", VStr "Pages marketing statiques")] ]);
    ("codeExamples",
      VArr [ VObj [("title", VStr "Nouvelle page");
                   ("code", VStr "@marco-astro ajoute une page contact")];
             VObj [("title", VStr "Composant");
                   ("code", VStr "<Badge variant='orange' />");
                   ("lang", VStr "astro")] ]);
    ("does", strings ["Sites statiques"]);
    ("doesNot", strings ["Applications temps reel"]);
    ("philosophy",
      VObj [("quote", VStr "Zero JS par defaut.");
            ("explanation", strings ["Le HTML suffit souvent."])]) ].

(** A second file with the slug of the first. *)
Definition marcoTwin : list (string * value) :=
  ("name", VStr "Marco Bis") :: marcoAstro.

(** The first entry with a skill that lacks its [description]. *)
Definition brokenSkill : list (string * value) :=
  ("skills", VArr [ VObj [("name", VStr "astro-conventions")] ]) :: marcoAstro.

(** A record whose lists are all empty and that has no [mcpTools]. *)
Definition shellEntry : list (string * value) :=
  [ ("name", VStr "Marco Astro");
    ("slug", VStr "marco-astro");
    ("tagline", VStr "...");
    ("description", VStr "");
    ("accentColor", VStr "#f97316");
    ("about", VArr []);
    ("specialties", VArr []);
    ("skills", VArr []);
    ("useCases", VArr []);
    ("codeExamples", VArr []);
    ("does", VArr []);
    ("doesNot", VArr []);
    ("philosophy",
      VObj [("quote", VStr "x"); ("explanation", strings ["y"])]) ].

Definition shellRecord : AgentRecord.t :=
  AgentRecord.mk "Marco Astro" "marco-astro" "..." "" "#f97316" None
    [] [] [] [] [] [] [] None (Philosophy.mk "x" ["y"]) false (999 # 1).

(** Records for the listing: [shellRecord] under another slug, order and
    draft flag. *)
Definition listed (slug : string) (draft : bool) (order : Q) : AgentRecord.t :=
  AgentRecord.mk slug slug "..." "" "#f97316" None
    [] [] [] [] [] [] [] None (Philosophy.mk "x" ["y"]) draft order.

Definition threeRecords : list AgentRecord.t :=
  [ listed "default" false (999 # 1);
    listed "two" false (2 # 1);
    listed "hidden" true (0 # 1);
    listed "one" false (1 # 1);
    listed "two-bis" false (4 # 2) ].

(** A projection that fails on the record whose slug is ["two"]. *)
Definition specialtyButTwo (r : AgentRecord.t) : option string :=
  if String.eqb (AgentRecord.slug r) "two" then None else Some "Astro".

Definition noImage (r : AgentRecord.t) : option string := None.

Definition firstSpecialty (r : AgentRecord.t) : option string :=
  Some (hd "" (AgentRecord.specialties r)).

End Samples.
Import Samples.

(** * Properties *)

(** ** Lists of options *)

Section AllSome.
Context {A B : Type} (f : A -> option B).

Lemma all_some_map_Forall2 (l : list A) (out : list B) :
  all_some (map f l) = Some out <-> Forall2 (fun x y => f x = Some y) l out.
Proof.
  revert out. induction l as [|x l IH]; intros out; simpl.
  - split; intros H.
    + injection H as <-. constructor.
    + inversion H. reflexivity.
  - split; intros H.
    + destruct (f x) as [y|] eqn:Ex; [|discriminate].
      destruct (all_some (map f l)) as [ys|] eqn:El; [|discriminate].
      injection H as <-. constructor; [assumption|]. apply IH. reflexivity.
    + inversion H as [|x' y l' ys Hy Hys]; subst.
      rewrite Hy. apply IH in Hys. rewrite Hys. reflexivity.
Qed.

Lemma all_some_map_None (l : list A) :
  all_some (map f l) = None <-> exists x, In x l /\ f x = None.
Proof.
  induction l as [|x l IH]; simpl.
  - split; [discriminate|]. intros (x & [] & _).
  - destruct (f x) as [y|] eqn:Ex.
    + destruct (all_some (map f l)) as [ys|].
      * split; [discriminate|]. intros (z & [<-|Hz] & Hnone).
        -- congruence.
        -- destruct IH as [_ IH].
           discriminate (IH (ex_intro _ z (conj Hz Hnone))).
      * split; [|reflexivity]. intros _.
        destruct IH as [IH _]. destruct (IH eq_refl) as (z & Hz & Hnone).
        exists z. auto.
    + split; [|reflexivity]. intros _. exists x. auto.
Qed.

Lemma all_some_map_ext (g : A -> option B) (l : list A) :
  (forall x, In x l -> f x = g x) -> all_some (map f l) = all_some (map g l).
Proof.
  intros H. f_equal. apply map_ext_in. exact H.
Qed.

End AllSome.

Lemma Forall2_nth_error_l {A B : Type} (R : A -> B -> Prop) (l : list A) (l' : list B) :
  Forall2 R l l' ->
  forall i x, nth_error l i = Some x -> exists y, nth_error l' i = Some y /\ R x y.
Proof.
  induction 1 as [|a b l l' Hab _ IH]; intros [|i] x Hx; simpl in *; try discriminate.
  - injection Hx as <-. eauto.
  - eauto.
Qed.

(** ** Reading and deleting properties *)

Lemma has_In (k : string) (props : list (string * value)) :
  has k props = true <-> In k (map fst props).
Proof.
  induction props as [|[k' v] props IH]; simpl.
  - split; [discriminate|tauto].
  - rewrite orb_true_iff, IH, String.eqb_eq. split; intros [H|H]; auto.
Qed.

Lemma has_false_get (k : string) (props : list (string * value)) :
  has k props = false -> get k props = VUndef.
Proof.
  induction props as [|[k' v] props IH]; simpl; [reflexivity|].
  intros H. apply orb_false_iff in H as [-> H]. auto.
Qed.

Lemma get_not_In (k : string) (props : list (string * value)) :
  ~ In k (map fst props) -> get k props = VUndef.
Proof.
  intros H. apply has_false_get. destruct (has k props) eqn:E; [|reflexivity].
  apply has_In in E. contradiction.
Qed.

Lemma get_del_eq (k : string) (props : list (string * value)) :
  get k (del k props) = VUndef.
Proof.
  induction props as [|[k' v] props IH]; simpl; [reflexivity|].
  destruct (String.eqb k k') eqn:E; simpl; [assumption|].
  rewrite E. assumption.
Qed.

Lemma get_del_ne (k k' : string) (props : list (string * value)) :
  String.eqb k k' = false -> get k (del k' props) = get k props.
Proof.
  intros Hne. induction props as [|[k0 v] props IH]; simpl; [reflexivity|].
  destruct (String.eqb k' k0) eqn:E; simpl.
  - apply String.eqb_eq in E. subst k0. rewrite Hne. assumption.
  - rewrite IH. reflexivity.
Qed.

(** ** Parsing objects *)

Lemma parse_object (shape : list (string * Zod.schema)) (props : list (string * value)) :
  parse (ZObject shape) (VObj props) =
  option_map (fun fields => VObj (filter (keep props) fields))
    (all_some (map (parse_field parse props) shape)).
Proof. reflexivity. Qed.

Lemma parse_object_inv (shape : list (string * Zod.schema)) (x v : value) :
  parse (ZObject shape) x = Some v ->
  exists props fields,
    x = VObj props /\
    all_some (map (parse_field parse props) shape) = Some fields /\
    v = VObj (filter (keep props) fields).
Proof.
  destruct x; simpl; try discriminate.
  destruct (all_some _) as [fields|] eqn:E; simpl; [|discriminate].
  intros H. injection H as <-. eauto.
Qed.

Lemma fields_keys (props : list (string * value)) (shape : list (string * Zod.schema))
    (fields : list (string * value)) :
  all_some (map (parse_field parse props) shape) = Some fields ->
  map fst fields = map fst shape.
Proof.
  intros H. apply all_some_map_Forall2 in H.
  induction H as [|[k sk] [k' v] shape fields Hf _ IH]; simpl; [reflexivity|].
  simpl in Hf. destruct (parse sk (get k props)); simpl in Hf; [|discriminate].
  injection Hf as -> _. f_equal. assumption.
Qed.

Lemma filter_keys_incl (keepb : string * value -> bool) (k : string)
    (fields : list (string * value)) :
  In k (map fst (filter keepb fields)) -> In k (map fst fields).
Proof.
  rewrite !in_map_iff. intros (kv & <- & Hin). apply filter_In in Hin as [Hin _].
  eauto.
Qed.

Lemma fields_get (props : list (string * value)) (shape : list (string * Zod.schema))
    (fields : list (string * value)) :
  NoDup (map fst shape) ->
  all_some (map (parse_field parse props) shape) = Some fields ->
  forall k sk, In (k, sk) shape ->
    exists r, parse sk (get k props) = Some r /\
              get k (filter (keep props) fields) = r.
Proof.
  revert fields. induction shape as [|[k0 s0] shape IH]; intros fields ND H k sk Hin.
  - destruct Hin.
  - simpl in H. destruct (parse s0 (get k0 props)) as [r0|] eqn:E0; simpl in H; [|discriminate].
    destruct (all_some (map (parse_field parse props) shape)) as [rest|] eqn:Er; [|discriminate].
    injection H as <-. inversion ND as [|? ? Hnotin ND']; subst.
    destruct Hin as [Heq|Hin].
    + injection Heq as <- <-. exists r0. split; [assumption|].
      simpl. destruct (keep props (k0, r0)) eqn:K; simpl.
      * rewrite String.eqb_refl. reflexivity.
      * unfold keep in K. simpl in K. apply orb_false_iff in K as [K _].
        destruct r0; try discriminate.
        apply get_not_In. intros Hk. apply filter_keys_incl in Hk.
        rewrite (fields_keys _ _ _ Er) in Hk. contradiction.
    + assert (String.eqb k k0 = false) as Hne.
      { apply String.eqb_neq. intros ->. apply Hnotin.
        apply in_map_iff. exists (k0, sk). auto. }
      destruct (IH rest ND' eq_refl k sk Hin) as (r & Hr & Hg).
      exists r. split; [assumption|].
      simpl. destruct (keep props (k0, r0)); simpl; [rewrite Hne|]; assumption.
Qed.

Lemma fields_strip (props : list (string * value)) (shape : list (string * Zod.schema))
    (fields : list (string * value)) (k : string) :
  all_some (map (parse_field parse props) shape) = Some fields ->
  ~ In k (map fst shape) ->
  has k (filter (keep props) fields) = false.
Proof.
  intros H Hk. destruct (has k _) eqn:E; [|reflexivity].
  apply has_In, filter_keys_incl in E. rewrite (fields_keys _ _ _ H) in E.
  contradiction.
Qed.

Lemma parse_object_some (shape : list (string * Zod.schema)) (props : list (string * value)) :
  (forall k sk, In (k, sk) shape -> parse sk (get k props) <> None) ->
  exists v, parse (ZObject shape) (VObj props) = Some v.
Proof.
  intros H. rewrite parse_object.
  destruct (all_some _) as [fields|] eqn:E; simpl; [eauto|].
  apply all_some_map_None in E as ([k sk] & Hin & Hnone).
  simpl in Hnone. specialize (H k sk Hin).
  destruct (parse sk (get k props)); [discriminate|contradiction].
Qed.

Lemma parse_object_ext (shape : list (string * Zod.schema)) (props props' : list (string * value)) :
  (forall k, In k (map fst shape) ->
     get k props = get k props' /\ has k props = has k props') ->
  parse (ZObject shape) (VObj props) = parse (ZObject shape) (VObj props').
Proof.
  intros H. rewrite !parse_object.
  assert (all_some (map (parse_field parse props) shape) =
          all_some (map (parse_field parse props') shape)) as E.
  { apply all_some_map_ext. intros [k sk] Hin. simpl.
    destruct (H k) as [-> _]; [|reflexivity].
    apply in_map_iff. exists (k, sk). auto. }
  rewrite <- E. destruct (all_some _) as [fields|] eqn:Ef; simpl; [|reflexivity].
  do 2 f_equal. apply filter_ext_in. intros [k v] Hin. unfold keep. simpl.
  destruct (H k) as [_ ->]; [|reflexivity].
  rewrite <- (fields_keys _ _ _ Ef). apply in_map_iff. exists (k, v). auto.
Qed.

(** A field that has a defect fails the object. *)
Lemma parse_object_field_None (shape : list (string * Zod.schema)) (props : list (string * value))
    (k : string) (sk : Zod.schema) :
  In (k, sk) shape -> parse sk (get k props) = None ->
  parse (ZObject shape) (VObj props) = None.
Proof.
  intros Hin Hnone. rewrite parse_object.
  assert (all_some (map (parse_field parse props) shape) = None) as ->; [|reflexivity].
  apply all_some_map_None. exists (k, sk). split; [assumption|].
  simpl. rewrite Hnone. reflexivity.
Qed.

(** Every defect is refused. *)
Lemma defect_refused (s : Zod.schema) (v : value) : defect s v -> parse s v = None.
Proof.
  induction 1 as [v H|v H|v H|item v H|item items x Hin _ IH|shape v H
                 |shape props k sk Hin _ IH|inner v Hv _ IH|inner dflt v Hv _ IH].
  - destruct v; simpl; try reflexivity. exfalso. eapply H. reflexivity.
  - destruct v; simpl; try reflexivity. exfalso. eapply H. reflexivity.
  - destruct v; simpl; try reflexivity. exfalso. eapply H. reflexivity.
  - destruct v; simpl; try reflexivity. exfalso. eapply H. reflexivity.
  - simpl. assert (all_some (map (parse item) items) = None) as ->; [|reflexivity].
    apply all_some_map_None. eauto.
  - destruct v; simpl; try reflexivity. exfalso. eapply H. reflexivity.
  - eapply parse_object_field_None; eassumption.
  - destruct v; simpl; try assumption. contradiction.
  - destruct v; simpl; try assumption. contradiction.
Qed.

(** ** The [agents] schema *)

Lemma agentKeys_NoDup : NoDup agentKeys.
Proof.
  replace agentKeys with (nodup string_dec agentKeys) by (vm_compute; reflexivity).
  apply NoDup_nodup.
Qed.

Lemma validate_inv (rawEntry out : value) :
  validate rawEntry = Some out ->
  exists props fields,
    rawEntry = VObj props /\ out = VObj fields /\
    (forall k sk, In (k, sk) agentShape ->
       exists r, parse sk (get k props) = Some r /\ get k fields = r) /\
    (forall k, ~ In k agentKeys -> has k fields = false).
Proof.
  intros H. apply parse_object_inv in H as (props & fields & -> & Hf & ->).
  exists props, (filter (keep props) fields). repeat split.
  - apply fields_get; [exact agentKeys_NoDup|exact Hf].
  - intros k Hk. eapply fields_strip; eassumption.
Qed.

Lemma parse_array_inv (item : Zod.schema) (x v : value) :
  parse (ZArray item) x = Some v ->
  exists l l', x = VArr l /\ v = VArr l' /\
               Forall2 (fun a b => parse item a = Some b) l l'.
Proof.
  destruct x; simpl; try discriminate.
  destruct (all_some _) as [l'|] eqn:E; simpl; [|discriminate].
  intros H. injection H as <-. apply all_some_map_Forall2 in E. eauto.
Qed.

Lemma parse_string_inv (x v : value) :
  parse ZString x = Some v -> exists s, x = VStr s /\ v = VStr s.
Proof. destruct x; simpl; try discriminate. intros H. injection H as <-. eauto. Qed.

Lemma codeExample_NoDup : NoDup (map fst [("title", ZString); ("code", ZString);
                                         ("lang", ZDefault ZString (VStr "bash"))]).
Proof. simpl. repeat constructor; simpl; intuition discriminate. Qed.

(** What a parsed code example looks like. *)
Lemma parse_codeExample_inv (x v : value) :
  parse codeExampleSchema x = Some v ->
  exists ex ex' t c l,
    x = VObj ex /\ v = VObj ex' /\
    get "title" ex' = VStr t /\ get "code" ex' = VStr c /\ get "lang" ex' = VStr l /\
    (get "lang" ex = VUndef -> l = "bash").
Proof.
  intros H. apply parse_object_inv in H as (ex & fields & -> & Hf & ->).
  pose proof (fields_get _ _ _ codeExample_NoDup Hf) as G.
  destruct (G "title" ZString) as (rt & Pt & Gt); [simpl; tauto|].
  destruct (G "code" ZString) as (rc & Pc & Gc); [simpl; tauto|].
  destruct (G "lang" (ZDefault ZString (VStr "bash"))) as (rl & Pl & Gl); [simpl; tauto|].
  apply parse_string_inv in Pt as (t & _ & ->), Pc as (c & _ & ->).
  assert (exists l, rl = VStr l /\ (get "lang" ex = VUndef -> l = "bash")) as (l & -> & Hl).
  { destruct (get "lang" ex); simpl in Pl; try discriminate; injection Pl as <-; eauto.
    exists s. split; [reflexivity|discriminate]. }
  exists ex, (filter (keep ex) fields), t, c, l. auto 10.
Qed.

(** C1 (as the code has it).  For every valid content entry, a code example
    that omits [lang] has [lang] equal to ["bash"] in the record that
    [validate] returns: the default of [codeExampleSchema] is ['bash'], not
    ['shell']. *)
Theorem validate_lang_default_bash
    (props : list (string * value)) (out : value)
    (exs : list value) (i : nat) (ex : list (string * value)) :
  validate (VObj props) = Some out ->
  get "codeExamples" props = VArr exs ->
  nth_error exs i = Some (VObj ex) ->
  has "lang" ex = false ->
  exists fields exs' ex',
    out = VObj fields /\
    get "codeExamples" fields = VArr exs' /\
    nth_error exs' i = Some (VObj ex') /\
    get "lang" ex' = VStr "bash" /\
    option_map CodeExample.lang (as_codeExample (VObj ex')) = Some (Some "bash").
Proof.
  intros Hv Hget Hnth Hlang.
  apply validate_inv in Hv as (props' & fields & Heq & -> & G & _).
  injection Heq as <-.
  destruct (G "codeExamples" (ZArray codeExampleSchema)) as (r & Pr & Gr);
    [simpl; tauto|].
  rewrite Hget in Pr.
  apply parse_array_inv in Pr as (l & l' & Hl & -> & F2).
  injection Hl as <-.
  destruct (Forall2_nth_error_l _ _ _ F2 i _ Hnth) as (y & Hy & Py).
  apply parse_codeExample_inv in Py as (ex0 & ex' & t & c & l & He & -> & Gt & Gc & Gl & Hd).
  injection He as <-.
  rewrite (Hd (has_false_get _ _ Hlang)) in Gl.
  exists fields, l', ex'. repeat split; try assumption.
  simpl. rewrite Gt, Gc, Gl. reflexivity.
Qed.

Lemma validate_lang_default_bash_witness :
  exists fields exs' ex',
    validate (VObj marcoAstro) = Some (VObj fields) /\
    get "codeExamples" fields = VArr exs' /\
    nth_error exs' 0 = Some (VObj ex') /\
    get "lang" ex' = VStr "bash".
Proof.
  destruct (validate (VObj marcoAstro)) as [out|] eqn:Hv; [|vm_compute in Hv; discriminate].
  destruct (validate_lang_default_bash marcoAstro out
              [ VObj [("title", VStr "Nouvelle page");
                      ("code", VStr "@marco-astro ajoute une page contact")];
                VObj [("title", VStr "Composant");
                      ("code", VStr "<Badge variant='orange' />");
                      ("lang", VStr "astro")] ]
              0
              [("title", VStr "Nouvelle page");
               ("code", VStr "@marco-astro ajoute une page contact")]
              Hv eq_refl eq_refl eq_refl)
    as (fields & exs' & ex' & -> & H1 & H2 & H3 & _).
  exists fields, exs', ex'. auto.
Defined.

(** C1 (as the specification words it) fails: the first code example of
    [marcoAstro] has no [lang], the entry is valid, and the [lang] of that
    example in the returned record is not ["shell"]. *)
Lemma validate_lang_default_not_shell :
  ~ (forall (props : list (string * value)) (out : value)
            (exs : list value) (i : nat) (ex : list (string * value)),
        validate (VObj props) = Some out ->
        get "codeExamples" props = VArr exs ->
        nth_error exs i = Some (VObj ex) ->
        has "lang" ex = false ->
        exists fields exs' ex',
          out = VObj fields /\
          get "codeExamples" fields = VArr exs' /\
          nth_error exs' i = Some (VObj ex') /\
          get "lang" ex' = VStr "shell").
Proof.
  intros H.
  destruct (validate (VObj marcoAstro)) as [out|] eqn:Hv; [|vm_compute in Hv; discriminate].
  destruct (H marcoAstro out _ 0 _ Hv eq_refl eq_refl eq_refl)
    as (fields & exs' & ex' & -> & H1 & H2 & H3).
  vm_compute in Hv. injection Hv as <-.
  vm_compute in H1. injection H1 as <-.
  simpl in H2. injection H2 as <-.
  vm_compute in H3. discriminate.
Qed.

(** ** All or nothing *)

Lemma loadCollection_None (c : collection) (before after : list value) (e : value) :
  parse (schema c) e = None -> loadCollection c (before ++ e :: after) = None.
Proof.
  intros H. apply all_some_map_None. exists e. split; [|assumption].
  apply in_elt.
Qed.

Lemma missing_required_defect (props : list (string * value)) (k : string) :
  In k requiredKeys -> has k props = false -> defect (schema agents) (VObj props).
Proof.
  intros Hk Hhas. apply has_false_get in Hhas. simpl in Hk.
  repeat (destruct Hk as [<-|Hk]; [
    match goal with
    | H : get ?k props = VUndef |- _ =>
        let sk := eval vm_compute in (shape_get k agentShape) in
        match sk with
        | Some ?s =>
            apply (defect_field agentShape props k s); [simpl; tauto|];
            rewrite H; constructor; intros; discriminate
        end
    end|]).
  destruct Hk.
Qed.

(** C4.  An entry with a type mismatch, a missing required field or a
    malformed item inside a nested list (at any depth: [defect]) is refused
    as a whole: [validate] returns no record, and a collection that holds
    the entry does not load, so that no page is made from it. *)
Theorem validate_all_or_nothing (rawEntry : value) :
  defect (schema agents) rawEntry \/
  (exists props k, rawEntry = VObj props /\ In k requiredKeys /\ has k props = false) ->
  validate rawEntry = None /\
  forall before after, loadCollection agents (before ++ rawEntry :: after) = None.
Proof.
  intros H.
  assert (defect (schema agents) rawEntry) as D.
  { destruct H as [D|(props & k & -> & Hk & Hhas)]; [assumption|].
    eapply missing_required_defect; eassumption. }
  apply defect_refused in D. split; [exact D|].
  intros before after. apply loadCollection_None. exact D.
Qed.

Lemma validate_all_or_nothing_witness :
  validate (VObj brokenSkill) = None /\
  forall before after,
    loadCollection agents (before ++ VObj brokenSkill :: after) = None.
Proof.
  apply (validate_all_or_nothing (VObj brokenSkill)). left.
  apply (defect_field agentShape brokenSkill "skills" (ZArray skillSchema));
    [simpl; tauto|].
  simpl. eapply defect_item; [left; reflexivity|].
  apply (defect_field _ _ "description" ZString); [simpl; tauto|].
  simpl. apply defect_string. discriminate.
Defined.

(** ** Unknown keys *)

Lemma known_iff (k : string) :
  existsb (String.eqb k) agentKeys = true <-> In k agentKeys.
Proof.
  rewrite existsb_exists. split.
  - intros (k' & Hin & E). apply String.eqb_eq in E. subst. assumption.
  - intros Hin. exists k. split; [assumption|apply String.eqb_refl].
Qed.

Lemma get_filter_key (P : string -> bool) (k : string) (props : list (string * value)) :
  P k = true -> get k (filter (fun kv => P (fst kv)) props) = get k props.
Proof.
  intros HP. induction props as [|[k' v] props IH]; simpl; [reflexivity|].
  destruct (String.eqb k k') eqn:E.
  - apply String.eqb_eq in E. subst k'. rewrite HP. simpl.
    rewrite String.eqb_refl. reflexivity.
  - destruct (P k'); simpl; [rewrite E|]; assumption.
Qed.

Lemma has_filter_key (P : string -> bool) (k : string) (props : list (string * value)) :
  P k = true -> has k (filter (fun kv => P (fst kv)) props) = has k props.
Proof.
  intros HP. induction props as [|[k' v] props IH]; simpl; [reflexivity|].
  destruct (String.eqb k k') eqn:E.
  - apply String.eqb_eq in E. subst k'. rewrite HP. simpl.
    rewrite String.eqb_refl. reflexivity.
  - destruct (P k'); simpl; [rewrite E|]; assumption.
Qed.

Lemma get_knownPart (k : string) (props : list (string * value)) :
  In k agentKeys -> get k (knownPart props) = get k props.
Proof.
  intros Hk.
  apply (get_filter_key (fun k => existsb (String.eqb k) agentKeys)).
  apply known_iff. assumption.
Qed.

Lemma has_knownPart (k : string) (props : list (string * value)) :
  In k agentKeys -> has k (knownPart props) = has k props.
Proof.
  intros Hk.
  apply (has_filter_key (fun k => existsb (String.eqb k) agentKeys)).
  apply known_iff. assumption.
Qed.

Lemma validate_knownPart (props : list (string * value)) :
  validate (VObj props) = validate (VObj (knownPart props)).
Proof.
  apply parse_object_ext. intros k Hk.
  rewrite get_knownPart, has_knownPart by exact Hk. auto.
Qed.

(** C9.  Keys that the schema does not know are stripped, not refused: an
    entry validates exactly as its part made of the known keys does, and
    the returned record has none of the unknown keys. *)
Theorem validate_strips_unknown_keys (props : list (string * value)) (out : value) :
  validate (VObj (knownPart props)) = Some out ->
  validate (VObj props) = Some out /\
  exists fields,
    out = VObj fields /\
    forall k, ~ In k agentKeys -> has k fields = false /\ get k fields = VUndef.
Proof.
  intros H. rewrite validate_knownPart. split; [assumption|].
  apply validate_inv in H as (props' & fields & _ & -> & _ & Hstrip).
  exists fields. split; [reflexivity|]. intros k Hk.
  split; [|apply has_false_get]; apply Hstrip; assumption.
Qed.

Lemma validate_strips_unknown_keys_witness :
  exists fields,
    validate (VObj (("image", VStr "/images/marco.png") :: marcoAstro
                      ++ [("video", VNull)])) = Some (VObj fields) /\
    has "image" fields = false /\ has "video" fields = false.
Proof.
  destruct (validate (VObj (knownPart (("image", VStr "/images/marco.png") :: marcoAstro
                                         ++ [("video", VNull)])))) as [out|] eqn:Hv;
    [|vm_compute in Hv; discriminate].
  destruct (validate_strips_unknown_keys _ out Hv) as (Hv' & fields & -> & Hs).
  exists fields. split; [exact Hv'|].
  split; apply Hs; vm_compute; intuition discriminate.
Defined.

(** ** The returned record is typed *)

Lemma typed_string (x v : value) :
  parse ZString x = Some v -> exists s, as_string v = Some s.
Proof. intros H. apply parse_string_inv in H as (s & _ & ->). simpl. eauto. Qed.

Lemma typed_array {A : Type} (item : Zod.schema) (f : value -> option A) (x v : value) :
  (forall a b, parse item a = Some b -> exists t, f b = Some t) ->
  parse (ZArray item) x = Some v ->
  exists ts, as_array f v = Some ts /\ (x = VArr [] -> ts = []).
Proof.
  intros Hf H. apply parse_array_inv in H as (l & l' & -> & -> & F2). simpl.
  induction F2 as [|a b l l' Hab _ IH]; simpl.
  - eauto.
  - destruct (Hf _ _ Hab) as (t & ->). destruct IH as (ts & -> & _).
    exists (t :: ts). split; [reflexivity|discriminate].
Qed.

Lemma typed_strings (x v : value) :
  parse (ZArray ZString) x = Some v ->
  exists ts, as_array as_string v = Some ts /\ (x = VArr [] -> ts = []).
Proof. apply typed_array. exact typed_string. Qed.

Lemma typed_optional_string (x v : value) :
  parse (ZOptional ZString) x = Some v ->
  exists o, as_optional as_string v = Some o /\ (x = VUndef -> o = None).
Proof.
  destruct x; simpl; intros H; try discriminate; injection H as <-; simpl.
  - eauto.
  - eexists. split; [reflexivity|discriminate].
Qed.

Lemma typed_optional_strings (x v : value) :
  parse (ZOptional (ZArray ZString)) x = Some v ->
  exists o, as_optional (as_array as_string) v = Some o /\ (x = VUndef -> o = None).
Proof.
  destruct x as [| | | | |l|]; try (simpl; discriminate).
  - simpl. intros H. injection H as <-. simpl. eauto.
  - intros H. change (parse (ZArray ZString) (VArr l) = Some v) in H.
    pose proof H as H'. apply parse_array_inv in H' as (l0 & l' & _ & -> & _).
    apply typed_strings in H as (ts & Hts & _).
    exists (Some ts). split; [|discriminate].
    unfold as_optional. rewrite Hts. reflexivity.
Qed.

Lemma two_strings_NoDup (a b : string) :
  String.eqb a b = false -> NoDup (map fst [(a, ZString); (b, ZString)]).
Proof.
  intros H. apply String.eqb_neq in H. simpl.
  repeat constructor; simpl; intuition.
Qed.

Lemma typed_skill (x v : value) :
  parse skillSchema x = Some v -> exists t, as_skill v = Some t.
Proof.
  intros H. apply parse_object_inv in H as (p & fields & -> & Hf & ->).
  pose proof (fields_get _ _ _ (two_strings_NoDup "name" "description" eq_refl) Hf) as G.
  destruct (G "name" ZString) as (r1 & P1 & G1); [simpl; tauto|].
  destruct (G "description" ZString) as (r2 & P2 & G2); [simpl; tauto|].
  apply typed_string in P1 as (s1 & E1), P2 as (s2 & E2).
  unfold as_skill. rewrite G1, G2, E1, E2. eauto.
Qed.

Lemma typed_useCase (x v : value) :
  parse useCaseSchema x = Some v -> exists t, as_useCase v = Some t.
Proof.
  intros H. apply parse_object_inv in H as (p & fields & -> & Hf & ->).
  pose proof (fields_get _ _ _ (two_strings_NoDup "title" "description" eq_refl) Hf) as G.
  destruct (G "title" ZString) as (r1 & P1 & G1); [simpl; tauto|].
  destruct (G "description" ZString) as (r2 & P2 & G2); [simpl; tauto|].
  apply typed_string in P1 as (s1 & E1), P2 as (s2 & E2).
  unfold as_useCase. rewrite G1, G2, E1, E2. eauto.
Qed.

Lemma typed_codeExample (x v : value) :
  parse codeExampleSchema x = Some v -> exists t, as_codeExample v = Some t.
Proof.
  intros H.
  apply parse_codeExample_inv in H as (ex & ex' & t & c & l & _ & -> & Gt & Gc & Gl & _).
  unfold as_codeExample. rewrite Gt, Gc, Gl. simpl. eauto.
Qed.

Lemma typed_philosophy (x v : value) :
  parse (ZObject [("quote", ZString); ("explanation", ZArray ZString)]) x = Some v ->
  exists t, as_philosophy v = Some t.
Proof.
  intros H. apply parse_object_inv in H as (p & fields & -> & Hf & ->).
  assert (NoDup (map fst [("quote", ZString); ("explanation", ZArray ZString)])) as ND.
  { simpl. repeat constructor; simpl; intuition discriminate. }
  pose proof (fields_get _ _ _ ND Hf) as G.
  destruct (G "quote" ZString) as (r1 & P1 & G1); [simpl; tauto|].
  destruct (G "explanation" (ZArray ZString)) as (r2 & P2 & G2); [simpl; tauto|].
  apply typed_string in P1 as (s1 & E1). apply typed_strings in P2 as (s2 & E2 & _).
  unfold as_philosophy. rewrite G1, G2, E1, E2. eauto.
Qed.

Lemma typed_draft (x v : value) :
  parse (ZDefault ZBoolean (VBool false)) x = Some v ->
  exists b, as_boolean v = Some b /\ (x = VUndef -> b = false).
Proof.
  destruct x; simpl; intros H; try discriminate; injection H as <-; simpl.
  - eauto.
  - eexists. split; [reflexivity|discriminate].
Qed.

Lemma typed_order (x v : value) :
  parse (ZDefault ZNumber (VNum (999 # 1))) x = Some v ->
  exists q, as_number v = Some q /\ (x = VUndef -> q = (999 # 1)%Q).
Proof.
  destruct x; simpl; intros H; try discriminate; injection H as <-; simpl.
  - eauto.
  - eexists. split; [reflexivity|discriminate].
Qed.

(** The record that [validate] returns reads at the type [AgentRecord.t],
    and the optional and defaulted fields of the record are those of the
    entry or, for an absent key, [None] and the default. *)
Lemma validate_typed (props : list (string * value)) (out : value) :
  validate (VObj props) = Some out ->
  exists r,
    to_record out = Some r /\
    (get "emoji" props = VUndef -> AgentRecord.emoji r = None) /\
    (get "mcpTools" props = VUndef -> AgentRecord.mcpTools r = None) /\
    (get "draft" props = VUndef -> AgentRecord.draft r = false) /\
    (get "order" props = VUndef -> AgentRecord.order r = (999 # 1)%Q).
Proof.
  intros H. apply validate_inv in H as (props' & fields & Heq & -> & G & _).
  injection Heq as <-.
  destruct (G "name" ZString) as (r1 & P1 & G1); [simpl; tauto|].
  destruct (G "slug" ZString) as (r2 & P2 & G2); [simpl; tauto|].
  destruct (G "tagline" ZString) as (r3 & P3 & G3); [simpl; tauto|].
  destruct (G "description" ZString) as (r4 & P4 & G4); [simpl; tauto|].
  destruct (G "accentColor" ZString) as (r5 & P5 & G5); [simpl; tauto|].
  destruct (G "emoji" (ZOptional ZString)) as (r6 & P6 & G6); [simpl; tauto|].
  destruct (G "about" (ZArray ZString)) as (r7 & P7 & G7); [simpl; tauto|].
  destruct (G "specialties" (ZArray ZString)) as (r8 & P8 & G8); [simpl; tauto|].
  destruct (G "skills" (ZArray skillSchema)) as (r9 & P9 & G9); [simpl; tauto|].
  destruct (G "useCases" (ZArray useCaseSchema)) as (r10 & P10 & G10); [simpl; tauto|].
  destruct (G "codeExamples" (ZArray codeExampleSchema)) as (r11 & P11 & G11);
    [simpl; tauto|].
  destruct (G "does" (ZArray ZString)) as (r12 & P12 & G12); [simpl; tauto|].
  destruct (G "doesNot" (ZArray ZString)) as (r13 & P13 & G13); [simpl; tauto|].
  destruct (G "mcpTools" (ZOptional (ZArray ZString))) as (r14 & P14 & G14);
    [simpl; tauto|].
  destruct (G "philosophy"
              (ZObject [("quote", ZString); ("explanation", ZArray ZString)]))
    as (r15 & P15 & G15); [simpl; tauto|].
  destruct (G "draft" (ZDefault ZBoolean (VBool false))) as (r16 & P16 & G16);
    [simpl; tauto|].
  destruct (G "order" (ZDefault ZNumber (VNum (999 # 1)))) as (r17 & P17 & G17);
    [simpl; tauto|].
  clear G.
  apply typed_string in P1 as (t1 & E1), P2 as (t2 & E2), P3 as (t3 & E3),
                        P4 as (t4 & E4), P5 as (t5 & E5).
  apply typed_optional_string in P6 as (t6 & E6 & D6).
  apply typed_strings in P7 as (t7 & E7 & _), P8 as (t8 & E8 & _),
                         P12 as (t12 & E12 & _), P13 as (t13 & E13 & _).
  apply (typed_array _ as_skill _ _ typed_skill) in P9 as (t9 & E9 & _).
  apply (typed_array _ as_useCase _ _ typed_useCase) in P10 as (t10 & E10 & _).
  apply (typed_array _ as_codeExample _ _ typed_codeExample) in P11 as (t11 & E11 & _).
  apply typed_optional_strings in P14 as (t14 & E14 & D14).
  apply typed_philosophy in P15 as (t15 & E15).
  apply typed_draft in P16 as (t16 & E16 & D16).
  apply typed_order in P17 as (t17 & E17 & D17).
  unfold to_record.
  rewrite G1, E1, G2, E2, G3, E3, G4, E4, G5, E5, G6, E6, G7, E7, G8, E8, G9, E9,
    G10, E10, G11, E11, G12, E12, G13, E13, G14, E14, G15, E15, G16, E16, G17, E17.
  simpl. eexists. split; [reflexivity|]. simpl. auto.
Qed.

(** C5.  A valid entry stays valid without [emoji] and [mcpTools]; the
    record that [validate] returns reads at its static type with nothing
    left to check, an omitted [draft] being [false] and an omitted [order]
    being 999. *)
Theorem validate_defaults_filled (props : list (string * value)) (out : value) :
  validate (VObj props) = Some out ->
  (exists out' r',
     validate (VObj (del "emoji" (del "mcpTools" props))) = Some out' /\
     to_record out' = Some r' /\
     AgentRecord.emoji r' = None /\ AgentRecord.mcpTools r' = None) /\
  (exists r,
     to_record out = Some r /\
     (has "draft" props = false -> AgentRecord.draft r = false) /\
     (has "order" props = false -> AgentRecord.order r = (999 # 1)%Q) /\
     (has "emoji" props = false -> AgentRecord.emoji r = None) /\
     (has "mcpTools" props = false -> AgentRecord.mcpTools r = None)).
Proof.
  intros H. split.
  - assert (exists out', validate (VObj (del "emoji" (del "mcpTools" props))) = Some out')
      as (out' & Hout').
    { apply validate_inv in H as (props' & fields & Heq & _ & G & _).
      injection Heq as <-.
      apply parse_object_some. intros k sk Hin.
      destruct (G k sk Hin) as (r & Pr & _).
      simpl in Hin.
      repeat (destruct Hin as [Heq|Hin]; [
        injection Heq as <- <-;
        first [ rewrite get_del_eq; simpl; discriminate
              | rewrite get_del_ne by reflexivity;
                first [ rewrite get_del_eq; simpl; discriminate
                      | rewrite get_del_ne by reflexivity; rewrite Pr; discriminate ] ]
        |]).
      destruct Hin. }
    destruct (validate_typed _ _ Hout') as (r' & Hr' & He & Hm & _ & _).
    exists out', r'. repeat split; try assumption.
    + apply He. apply get_del_eq.
    + apply Hm. rewrite get_del_ne by reflexivity. apply get_del_eq.
  - destruct (validate_typed _ _ H) as (r & Hr & He & Hm & Hd & Ho).
    exists r. repeat split; try assumption; intros Hhas;
      apply has_false_get in Hhas; auto.
Qed.

Lemma validate_defaults_filled_witness :
  exists out r,
    validate (VObj marcoAstro) = Some out /\
    to_record out = Some r /\
    AgentRecord.draft r = false /\
    AgentRecord.order r = (999 # 1)%Q /\
    AgentRecord.emoji r = None /\
    AgentRecord.mcpTools r = None.
Proof.
  destruct (validate (VObj marcoAstro)) as [out|] eqn:Hv; [|vm_compute in Hv; discriminate].
  destruct (validate_defaults_filled marcoAstro out Hv)
    as (_ & r & Hr & Hd & Ho & He & Hm).
  exists out, r. repeat split; auto.
Defined.

(** ** Entries that share a slug *)

Lemma validate_slug (entry out : value) :
  validate entry = Some out -> slugOf out = slugOf entry.
Proof.
  intros H. apply validate_inv in H as (props & fields & -> & -> & G & _).
  destruct (G "slug" ZString) as (r & Pr & Gr); [simpl; tauto|].
  apply parse_string_inv in Pr as (s & Hs & ->). simpl. congruence.
Qed.

(** C6 (as the code has it).  The schema looks at one entry at a time and
    nothing compares slugs: when every entry is valid on its own, the
    collection loads although two of its entries share a slug, and it holds
    the validated record of each of the two, both under that slug. *)
Theorem duplicate_slug_loads
    (entries : list value) (i j : nat) (e1 e2 : value) :
  i <> j ->
  nth_error entries i = Some e1 ->
  nth_error entries j = Some e2 ->
  slugOf e1 = slugOf e2 ->
  (forall e, In e entries -> validate e <> None) ->
  exists outs o1 o2,
    loadCollection agents entries = Some outs /\
    nth_error outs i = Some o1 /\ validate e1 = Some o1 /\
    nth_error outs j = Some o2 /\ validate e2 = Some o2 /\
    slugOf o1 = slugOf e1 /\ slugOf o2 = slugOf e1.
Proof.
  intros _ H1 H2 Hslug Hvalid.
  destruct (loadCollection agents entries) as [outs|] eqn:L.
  - apply all_some_map_Forall2 in L.
    destruct (Forall2_nth_error_l _ _ _ L i e1 H1) as (o1 & Ho1 & V1).
    destruct (Forall2_nth_error_l _ _ _ L j e2 H2) as (o2 & Ho2 & V2).
    exists outs, o1, o2. repeat split; try assumption.
    + apply validate_slug. exact V1.
    + rewrite Hslug. apply validate_slug. exact V2.
  - apply all_some_map_None in L as (e & Hin & Hnone).
    elim (Hvalid e Hin). exact Hnone.
Qed.

Lemma duplicate_slug_loads_witness :
  exists outs o1 o2,
    loadCollection agents [VObj marcoAstro; VObj marcoTwin] = Some outs /\
    nth_error outs 0 = Some o1 /\ nth_error outs 1 = Some o2 /\
    slugOf o1 = VStr "marco-astro" /\ slugOf o2 = VStr "marco-astro".
Proof.
  destruct (duplicate_slug_loads [VObj marcoAstro; VObj marcoTwin] 0 1
              (VObj marcoAstro) (VObj marcoTwin))
    as (outs & o1 & o2 & L & N1 & _ & N2 & _ & S1 & S2).
  - discriminate.
  - reflexivity.
  - reflexivity.
  - reflexivity.
  - intros e [<-|[<-|[]]]; vm_compute; discriminate.
  - exists outs, o1, o2. auto.
Defined.

(** C6 (as the specification words it) fails: [marcoAstro] and [marcoTwin]
    share the slug ["marco-astro"] and the collection that holds both
    loads. *)
Lemma duplicate_slug_not_refused :
  ~ (forall (entries : list value) (i j : nat) (e1 e2 : value),
        i <> j ->
        nth_error entries i = Some e1 ->
        nth_error entries j = Some e2 ->
        slugOf e1 = slugOf e2 ->
        loadCollection agents entries = None).
Proof.
  intros H.
  specialize (H [VObj marcoAstro; VObj marcoTwin] 0 1 (VObj marcoAstro) (VObj marcoTwin)).
  assert (loadCollection agents [VObj marcoAstro; VObj marcoTwin] = None) as L.
  { apply H; [discriminate|reflexivity|reflexivity|reflexivity]. }
  vm_compute in L. discriminate.
Qed.

(** ** The agent page *)

(** C2.  The sections of an assembled page are the components of the
    barrel export in its order (Hero, About, Specialties, Skills, UseCases,
    Examples, DosDonts, Config, Philosophy, CTA), without Config exactly
    when [mcpTools] is absent or empty. *)
Theorem assemble_fixed_order (record : AgentRecord.t) :
  map component_of (assemble record) =
    filter (fun c => negb (is_config c) || has_mcpTools record) exports /\
  (~ In AgentConfig (map component_of (assemble record)) <->
   AgentRecord.mcpTools record = None \/ AgentRecord.mcpTools record = Some []).
Proof.
  unfold assemble, has_mcpTools.
  destruct (AgentRecord.mcpTools record) as [[|tool tools]|]; simpl.
  - split; [reflexivity|]. split; [auto|]. intros _ H.
    repeat (destruct H as [H|H]; [discriminate|]). exact H.
  - split; [reflexivity|]. split.
    + intros H. elim H. tauto.
    + intros [H|H]; discriminate.
  - split; [reflexivity|]. split; [auto|]. intros _ H.
    repeat (destruct H as [H|H]; [discriminate|]). exact H.
Qed.

(** C7.  A record whose [skills], [useCases], [codeExamples], [does] and
    [doesNot] are empty and that has no [mcpTools] assembles to nine
    sections, none of them Config; the sections of the empty lists are there
    and list nothing. *)
Theorem assemble_empty_lists (record : AgentRecord.t) :
  AgentRecord.skills record = [] ->
  AgentRecord.useCases record = [] ->
  AgentRecord.codeExamples record = [] ->
  AgentRecord.does record = [] ->
  AgentRecord.doesNot record = [] ->
  AgentRecord.mcpTools record = None ->
  assemble record =
    [ Hero (AgentRecord.name record) (AgentRecord.tagline record)
        (AgentRecord.accentColor record);
      About ("Qui est " ++ AgentRecord.name record ++ " ?")%string
        (AgentRecord.about record);
      Specialties (AgentRecord.specialties record);
      Skills [] (AgentRecord.accentColor record);
      UseCases [] (AgentRecord.name record);
      Examples [];
      DosDonts [] [] (AgentRecord.name record);
      PhilosophySection (AgentRecord.philosophy record)
        (AgentRecord.accentColor record);
      CTA (AgentRecord.name record) None ] /\
  List.length (assemble record) = 9 /\
  ~ In AgentConfig (map component_of (assemble record)) /\
  (forall s, In s (assemble record) ->
     In (component_of s) [AgentSkills; AgentUseCases; AgentExamples; AgentDosDonts] ->
     itemCount s = 0).
Proof.
  intros Hs Hu Hc Hd Hn Hm. unfold assemble. rewrite Hs, Hu, Hc, Hd, Hn, Hm. simpl.
  split; [reflexivity|]. split; [reflexivity|]. split.
  - intros H. repeat (destruct H as [H|H]; [discriminate|]). exact H.
  - intros s Hin Hcomp.
    repeat (destruct Hin as [<-|Hin]; [
      simpl in Hcomp |- *; first [reflexivity | intuition discriminate] |]).
    destruct Hin.
Qed.

Lemma assemble_empty_lists_witness :
  (exists out, validate (VObj shellEntry) = Some out /\
               to_record out = Some shellRecord) /\
  List.length (assemble shellRecord) = 9 /\
  ~ In AgentConfig (map component_of (assemble shellRecord)).
Proof.
  split.
  - eexists. split; vm_compute; reflexivity.
  - destruct (assemble_empty_lists shellRecord) as (_ & L & C & _);
      try reflexivity.
    split; assumption.
Defined.

(** ** The constant listing *)

(** C10.  [AGENTS_LIST] has 8 entries, their slugs are pairwise distinct
    and the image of each is [AGENT_PLACEHOLDER_IMAGE]. *)
Theorem AGENTS_LIST_invariants :
  List.length AGENTS_LIST = 8 /\
  NoDup (map AgentCardData.slug AGENTS_LIST) /\
  Forall (fun card => AgentCardData.image card = AGENT_PLACEHOLDER_IMAGE) AGENTS_LIST.
Proof.
  split; [reflexivity|]. split.
  - replace (map AgentCardData.slug AGENTS_LIST)
      with (nodup string_dec (map AgentCardData.slug AGENTS_LIST))
      by (vm_compute; reflexivity).
    apply NoDup_nodup.
  - unfold AGENTS_LIST. repeat constructor.
Qed.

(** ** Sorting by [order] *)

Lemma order_leb_le (a b : AgentRecord.t) : order_leb a b = true <-> order_le a b.
Proof. apply Qle_bool_iff. Qed.

Lemma order_leb_total (a b : AgentRecord.t) : order_leb a b = false -> order_le b a.
Proof.
  intros H. apply Qlt_le_weak, Qnot_le_lt. intros Hle.
  apply order_leb_le in Hle. congruence.
Qed.

Lemma order_le_trans (a b c : AgentRecord.t) : order_le a b -> order_le b c -> order_le a c.
Proof. apply Qle_trans. Qed.

Lemma insert_perm (r : AgentRecord.t) (l : list AgentRecord.t) :
  Permutation (insert r l) (r :: l).
Proof.
  induction l as [|x l IH]; simpl; [reflexivity|].
  destruct (order_leb r x); [reflexivity|].
  rewrite IH. apply perm_swap.
Qed.

Lemma sortByOrder_perm (l : list AgentRecord.t) : Permutation (sortByOrder l) l.
Proof.
  induction l as [|r l IH]; simpl; [reflexivity|].
  rewrite insert_perm. constructor. exact IH.
Qed.

Lemma insert_sorted (r : AgentRecord.t) (l : list AgentRecord.t) :
  StronglySorted order_le l -> StronglySorted order_le (insert r l).
Proof.
  induction 1 as [|x l Hs IH Hx]; simpl.
  - repeat constructor.
  - destruct (order_leb r x) eqn:E.
    + apply order_leb_le in E. constructor; [constructor; assumption|].
      constructor; [assumption|].
      eapply Forall_impl; [|exact Hx]. intros y. apply order_le_trans. exact E.
    + apply order_leb_total in E. constructor; [assumption|].
      eapply Permutation_Forall; [symmetry; apply insert_perm|].
      constructor; assumption.
Qed.

Lemma sortByOrder_sorted (l : list AgentRecord.t) :
  StronglySorted order_le (sortByOrder l).
Proof.
  induction l as [|r l IH]; simpl; [constructor|]. apply insert_sorted. exact IH.
Qed.



Lemma insert_head (r : AgentRecord.t) (l : list AgentRecord.t) :
  Forall (order_le r) l -> insert r l = r :: l.
Proof.
  destruct 1 as [|x l Hx _]; simpl; [reflexivity|].
  apply order_leb_le in Hx. rewrite Hx. reflexivity.
Qed.

Lemma filter_insert (P : AgentRecord.t -> bool) (r : AgentRecord.t) (l : list AgentRecord.t) :
  StronglySorted order_le l ->
  filter P (insert r l) = if P r then insert r (filter P l) else filter P l.
Proof.
  induction 1 as [|x l Hs IH Hx]; simpl.
  - destruct (P r); reflexivity.
  - destruct (order_leb r x) eqn:E.
    + simpl. destruct (P r); [|reflexivity].
      symmetry. apply insert_head. apply order_leb_le in E.
      assert (Forall (order_le r) (x :: l)) as Hall.
      { constructor; [assumption|]. eapply Forall_impl; [|exact Hx].
        intros y. apply order_le_trans. exact E. }
      apply Forall_forall. intros y Hy.
      rewrite Forall_forall in Hall. apply Hall.
      change (In y (filter P (x :: l))) in Hy. apply filter_In in Hy. tauto.
    + simpl. rewrite IH. destruct (P x), (P r); simpl; try rewrite E; reflexivity.
Qed.

Lemma filter_sortByOrder (P : AgentRecord.t -> bool) (l : list AgentRecord.t) :
  filter P (sortByOrder l) = sortByOrder (filter P l).
Proof.
  induction l as [|r l IH]; simpl; [reflexivity|].
  rewrite filter_insert by apply sortByOrder_sorted.
  rewrite IH. destruct (P r); reflexivity.
Qed.

(** ** Keeping the results that are there *)

Section Choose.
Context {A B : Type} (f : A -> option B).

Lemma choose_length (l : list A) : List.length (choose f l) <= List.length l.
Proof.
  induction l as [|x l IH]; simpl; [lia|]. destruct (f x); simpl; lia.
Qed.

Lemma choose_In (l : list A) (x : A) (y : B) :
  In x l -> f x = Some y -> In y (choose f l).
Proof.
  intros Hin Hy. induction l as [|a l IH]; [destruct Hin|].
  simpl. destruct Hin as [->|Hin].
  - rewrite Hy. left. reflexivity.
  - destruct (f a); [right|]; auto.
Qed.


Lemma choose_filter (l : list A) :
  choose f (filter (fun x => match f x with Some _ => true | None => false end) l) =
  choose f l.
Proof.
  induction l as [|a l IH]; simpl; [reflexivity|].
  destruct (f a) eqn:E; simpl; [rewrite E, IH|]; auto.
Qed.

End Choose.

Lemma filter_comm {A : Type} (P Q : A -> bool) (l : list A) :
  filter P (filter Q l) = filter Q (filter P l).
Proof.
  induction l as [|a l IH]; simpl; [reflexivity|].
  destruct (P a) eqn:EP, (Q a) eqn:EQ; simpl; rewrite ?EP, ?EQ, IH; reflexivity.
Qed.

(** ** The listing *)

Lemma published_In (allRecords : list AgentRecord.t) (r : AgentRecord.t) :
  In r (published allRecords) <-> In r allRecords /\ AgentRecord.draft r = false.
Proof.
  unfold published. rewrite filter_In, negb_true_iff. reflexivity.
Qed.






(** Orders 999 (the default), 2, 1 and a second 2 written [4/2]: the listing
    is 1, 2, 2, 999, the two records of order 2 as in the source, and the
    draft is not listed. *)
Example listAgents_threeRecords :
  map AgentCardData.slug (listAgents noImage firstSpecialty threeRecords) =
  ["one"; "two"; "two-bis"; "default"].
Proof. vm_compute. reflexivity. Qed.

(** C8.  [listAgents] is a total function; it returns at most as many cards
    as it is given records; a record whose projection fails is left out and
    the listing is that of the other records; a record that is listed and has
    no image gets the placeholder. *)
Theorem listAgents_total
    (imageOf specialtyOf : AgentRecord.t -> option string)
    (allRecords : list AgentRecord.t) :
  List.length (listAgents imageOf specialtyOf allRecords) <= List.length allRecords /\
  listAgents imageOf specialtyOf allRecords =
    listAgents imageOf specialtyOf
      (filter (projectable imageOf specialtyOf) allRecords) /\
  (forall r sp,
     In r allRecords -> AgentRecord.draft r = false ->
     specialtyOf r = Some sp -> imageOf r = None ->
     In (AgentCardData.mk (AgentRecord.name r) (AgentRecord.slug r)
           (AgentRecord.tagline r) sp AGENT_PLACEHOLDER_IMAGE
           (AgentRecord.accentColor r))
        (listAgents imageOf specialtyOf allRecords)).
Proof.
  unfold listAgents. split; [|split].
  - etransitivity; [apply choose_length|].
    rewrite (Permutation_length (sortByOrder_perm _)).
    unfold published. apply filter_length_le.
  - unfold published at 2. rewrite filter_comm.
    fold (published allRecords). rewrite <- filter_sortByOrder.
    unfold projectable. rewrite choose_filter. reflexivity.
  - intros r sp Hr Hd Hsp Himg.
    apply choose_In with (x := r).
    + eapply Permutation_in; [symmetry; apply sortByOrder_perm|].
      apply published_In. auto.
    + unfold project. rewrite Hsp, Himg. reflexivity.
Qed.

Lemma listAgents_total_witness :
  List.length (listAgents noImage specialtyButTwo threeRecords) <= 5 /\
  In (AgentCardData.mk "one" "one" "..." "Astro" AGENT_PLACEHOLDER_IMAGE "#f97316")
     (listAgents noImage specialtyButTwo threeRecords).
Proof.
  destruct (listAgents_total noImage specialtyButTwo threeRecords) as (L & _ & I).
  split; [exact L|].
  apply (I (listed "one" false (1 # 1)) "Astro").
  - simpl. tauto.
  - reflexivity.
  - reflexivity.
  - reflexivity.
Defined.

(** The record whose projection fails is skipped, the others are listed. *)
Example listAgents_skips :
  map AgentCardData.slug (listAgents noImage specialtyButTwo threeRecords) =
  ["one"; "two-bis"; "default"].
Proof. vm_compute. reflexivity. Qed.

(** * Further properties of the schemas *)

(** ** Lists *)

Lemma Forall2_weaken_In {A B : Type} (R R' : A -> B -> Prop) (l : list A) (l' : list B) :
  Forall2 R l l' ->
  (forall a b, In a l -> In b l' -> R a b -> R' a b) ->
  Forall2 R' l l'.
Proof.
  induction 1 as [|a b l l' Hab _ IH]; intros H; constructor.
  - apply H; simpl; auto.
  - apply IH. intros a' b' Ha Hb. apply H; simpl; auto.
Qed.

Lemma Forall2_In_r {A B : Type} (R : A -> B -> Prop) (l : list A) (l' : list B) (b : B) :
  Forall2 R l l' -> In b l' -> exists a, In a l /\ R a b.
Proof.
  induction 1 as [|a b' l l' Hab _ IH]; intros Hin; [destruct Hin|].
  destruct Hin as [<-|Hin].
  - exists a. simpl. auto.
  - destruct (IH Hin) as (a' & Ha' & Hr). exists a'. simpl. auto.
Qed.

Lemma Forall2_same {A : Type} (R : A -> A -> Prop) (l : list A) :
  Forall (fun a => R a a) l -> Forall2 R l l.
Proof. induction 1; constructor; assumption. Qed.

Lemma Forall2_eq {A : Type} (l l' : list A) : Forall2 eq l l' -> l = l'.
Proof. induction 1; congruence. Qed.

Lemma distinct_NoDup (keys : list string) : distinct keys = true -> NoDup keys.
Proof.
  induction keys as [|k keys IH]; simpl; intros H; constructor.
  - apply andb_true_iff in H as [H _]. apply negb_true_iff in H.
    intros Hin. assert (existsb (String.eqb k) keys = true) as E; [|congruence].
    apply existsb_exists. exists k. split; [assumption|apply String.eqb_refl].
  - apply IH. apply andb_true_iff in H as [_ H]. exact H.
Qed.

(** ** Properties of every schema *)

(** No schema accepts [null]. *)
Lemma parse_null (s : Zod.schema) : parse s VNull = None.
Proof. induction s using schema_ind; simpl; auto. Qed.

(** No schema accepts an array that holds [null]. *)
Lemma parse_null_item (s : Zod.schema) (l : list value) :
  In VNull l -> parse s (VArr l) = None.
Proof.
  intros Hin. induction s using schema_ind; simpl; auto.
  assert (all_some (map (parse s) l) = None) as ->; [|reflexivity].
  apply all_some_map_None. exists VNull. split; [assumption|apply parse_null].
Qed.

Lemma parse_field_inv (props : list (string * value))
    (k : string) (sk : Zod.schema) (y : string * value) :
  parse_field parse props (k, sk) = Some y ->
  exists r, y = (k, r) /\ parse sk (get k props) = Some r.
Proof.
  simpl. destruct (parse sk (get k props)) as [r|]; simpl; [|discriminate].
  intros H. injection H as <-. eauto.
Qed.

(** What is parsed holds no [null]. *)
Lemma parse_null_free (s : Zod.schema) :
  forall x v, parse s x = Some v -> null_free v = true.
Proof.
  induction s as [| | |item IH|shape IH|inner IH|inner dflt IH] using schema_ind;
    intros x v H.
  - destruct x; simpl in H; try discriminate. injection H as <-. reflexivity.
  - destruct x; simpl in H; try discriminate. injection H as <-. reflexivity.
  - destruct x; simpl in H; try discriminate. injection H as <-. reflexivity.
  - apply parse_array_inv in H as (l & l' & -> & -> & F2). simpl.
    apply forallb_forall. intros b Hb.
    destruct (Forall2_In_r _ _ _ _ F2 Hb) as (a & _ & Hab). eapply IH. exact Hab.
  - apply parse_object_inv in H as (props & fields & -> & Hf & ->). simpl.
    apply forallb_forall. intros [k r] Hin. apply filter_In in Hin as [Hin _].
    apply all_some_map_Forall2 in Hf.
    destruct (Forall2_In_r _ _ _ _ Hf Hin) as ([k' sk] & Hks & Hp).
    apply parse_field_inv in Hp as (r' & Heq & Hr').
    injection Heq as -> ->. rewrite Forall_forall in IH.
    apply (IH (k', sk) Hks _ _ Hr').
  - destruct x; simpl in H; try (eapply IH; exact H).
    injection H as <-. reflexivity.
  - destruct x; simpl in H; eapply IH; exact H.
Qed.

Lemma has_filtered_out (keepb : string * value -> bool) (fields : list (string * value))
    (k : string) (r : value) :
  NoDup (map fst fields) -> In (k, r) fields -> keepb (k, r) = false ->
  has k (filter keepb fields) = false.
Proof.
  induction fields as [|[k0 r0] fields IH]; intros ND Hin Hk; [destruct Hin|].
  inversion ND as [|? ? Hnotin ND']; subst. simpl.
  destruct Hin as [Heq|Hin].
  - injection Heq as -> ->. rewrite Hk.
    destruct (has k (filter keepb fields)) eqn:E; [|reflexivity].
    apply has_In, filter_keys_incl in E. contradiction.
  - assert (String.eqb k k0 = false) as Hne.
    { apply String.eqb_neq. intros ->. apply Hnotin.
      apply in_map_iff. exists (k0, r). auto. }
    destruct (keepb (k0, r0)); simpl; [rewrite Hne; simpl|]; apply IH; assumption.
Qed.

Lemma has_kept (keepb : string * value -> bool) (fields : list (string * value))
    (k : string) (r : value) :
  In (k, r) fields -> keepb (k, r) = true -> has k (filter keepb fields) = true.
Proof.
  intros Hin Hk. apply has_In, in_map_iff. exists (k, r). split; [reflexivity|].
  apply filter_In. auto.
Qed.

(** Parsing what was parsed changes nothing. *)
Lemma parse_idem (s : Zod.schema) :
  wf s = true -> forall x v, parse s x = Some v -> parse s v = Some v.
Proof.
  induction s as [| | |item IH|shape IH|inner IH|inner dflt IH] using schema_ind;
    intros Hwf x v H.
  - destruct x; simpl in H; try discriminate. injection H as <-. reflexivity.
  - destruct x; simpl in H; try discriminate. injection H as <-. reflexivity.
  - destruct x; simpl in H; try discriminate. injection H as <-. reflexivity.
  - simpl in Hwf. apply parse_array_inv in H as (l & l' & -> & -> & F2). simpl.
    assert (all_some (map (parse item) l') = Some l') as ->; [|reflexivity].
    apply all_some_map_Forall2, Forall2_same, Forall_forall. intros b Hb.
    destruct (Forall2_In_r _ _ _ _ F2 Hb) as (a & _ & Hab).
    eapply IH; eassumption.
  - simpl in Hwf. apply andb_true_iff in Hwf as [Hd Hwf].
    apply distinct_NoDup in Hd. rewrite forallb_forall in Hwf.
    rewrite Forall_forall in IH.
    apply parse_object_inv in H as (props & fields & -> & Hf & ->).
    pose proof (fields_get _ _ _ Hd Hf) as G.
    pose proof (fields_keys _ _ _ Hf) as K.
    rewrite parse_object.
    assert (all_some (map (parse_field parse (filter (keep props) fields)) shape)
            = Some fields) as ->.
    { apply all_some_map_Forall2. apply all_some_map_Forall2 in Hf.
      eapply Forall2_weaken_In; [exact Hf|].
      intros [k sk] y Hks _ Hy.
      apply parse_field_inv in Hy as (r & -> & Hr).
      destruct (G k sk Hks) as (r' & Hr' & Hg).
      assert (r' = r) as -> by congruence.
      pose proof (IH (k, sk) Hks (Hwf _ Hks) _ _ Hr) as Hi. simpl in Hi.
      simpl. rewrite Hg, Hi. reflexivity. }
    simpl. do 2 f_equal. apply filter_ext_in. intros [k r] Hin.
    unfold keep at 1 3. simpl. destruct (is_undef r) eqn:Er; [|reflexivity]. simpl.
    destruct (has k props) eqn:Eh.
    + apply has_kept with (r := r); [assumption|].
      unfold keep. simpl. rewrite Eh. apply orb_true_r.
    + apply has_filtered_out with (r := r); [rewrite K; assumption|assumption|].
      unfold keep. simpl. rewrite Er, Eh. reflexivity.
  - simpl in Hwf.
    assert (parse inner v = Some v \/ v = VUndef) as [Hv| ->].
    { destruct x; simpl in H; try (left; eapply IH; eassumption).
      injection H as <-. right. reflexivity. }
    + simpl. destruct v; try assumption. reflexivity.
    + reflexivity.
  - simpl in Hwf. apply andb_true_iff in Hwf as [Hwf Hu].
    apply andb_true_iff in Hwf as [Hwf _]. apply negb_true_iff in Hu.
    assert (parse inner v = Some v) as Hv.
    { destruct x; simpl in H; eapply IH; eassumption. }
    destruct v; simpl; try assumption.
    rewrite Hv in Hu. discriminate.
Qed.

(** A value that a well-formed schema refuses has a defect. *)
Lemma parse_None_defect (s : Zod.schema) :
  wf s = true -> forall x, parse s x = None -> defect s x.
Proof.
  induction s as [| | |item IH|shape IH|inner IH|inner dflt IH] using schema_ind;
    intros Hwf x H.
  - apply defect_string. intros s ->. discriminate.
  - apply defect_number. intros q ->. discriminate.
  - apply defect_boolean. intros b ->. discriminate.
  - simpl in Hwf. destruct x as [| | | | |l|];
      try (apply defect_not_array; intros; discriminate).
    simpl in H. destruct (all_some (map (parse item) l)) eqn:E; [discriminate|].
    apply all_some_map_None in E as (a & Ha & Hnone).
    eapply defect_item; [exact Ha|]. apply IH; assumption.
  - simpl in Hwf. apply andb_true_iff in Hwf as [_ Hwf].
    rewrite forallb_forall in Hwf. rewrite Forall_forall in IH.
    destruct x as [| | | | | |props];
      try (apply defect_not_object; intros; discriminate).
    rewrite parse_object in H.
    destruct (all_some (map (parse_field parse props) shape)) eqn:E; [discriminate|].
    apply all_some_map_None in E as ([k sk] & Hks & Hnone).
    apply (defect_field shape props k sk Hks).
    apply (IH (k, sk) Hks (Hwf _ Hks)).
    simpl in Hnone |- *. destruct (parse sk (get k props)); [discriminate|reflexivity].
  - simpl in Hwf. destruct x; simpl in H; try discriminate;
      (apply defect_optional; [discriminate|apply IH; assumption]).
  - simpl in Hwf. apply andb_true_iff in Hwf as [Hwf _].
    apply andb_true_iff in Hwf as [Hwf Hd].
    destruct x; simpl in H;
      try (apply defect_default; [discriminate|apply IH; assumption]).
    rewrite H in Hd. discriminate.
Qed.

Lemma agents_wf : wf (schema agents) = true.
Proof. vm_compute. reflexivity. Qed.

Lemma shape_get_In (k : string) (sk : Zod.schema) (shape : list (string * Zod.schema)) :
  shape_get k shape = Some sk -> In (k, sk) shape.
Proof.
  induction shape as [|[k' s'] shape IH]; simpl; [discriminate|].
  destruct (String.eqb k k') eqn:E.
  - apply String.eqb_eq in E. subst k'. intros H. injection H as <-. auto.
  - auto.
Qed.

Lemma agentKeys_shape (k : string) :
  In k agentKeys -> exists sk, In (k, sk) agentShape.
Proof.
  intros H. apply in_map_iff in H as ([k' sk] & <- & Hin). eauto.
Qed.

(** ** No [null] *)

(** X1.  [validate] refuses an entry in which a key of the schema is
    [null], or is an array that holds [null]: no key is nullable, the
    optional ones included. *)
Theorem validate_refuses_null (props : list (string * value)) (k : string) :
  In k agentKeys ->
  get k props = VNull \/ (exists l, get k props = VArr l /\ In VNull l) ->
  validate (VObj props) = None.
Proof.
  intros Hk H. destruct (agentKeys_shape k Hk) as (sk & Hks).
  apply (parse_object_field_None agentShape props k sk Hks).
  destruct H as [->|(l & -> & Hl)].
  - apply parse_null.
  - apply parse_null_item. exact Hl.
Qed.

Lemma validate_refuses_null_witness :
  validate (VObj (("emoji", VNull) :: marcoAstro)) = None /\
  validate (VObj (("mcpTools", VArr [VStr "context7"; VNull]) :: marcoAstro)) = None.
Proof.
  split.
  - apply (validate_refuses_null _ "emoji"); [simpl; tauto|left; reflexivity].
  - apply (validate_refuses_null _ "mcpTools"); [simpl; tauto|].
    right. exists [VStr "context7"; VNull]. split; [reflexivity|simpl; tauto].
Defined.

(** X2.  The record that [validate] returns holds no [null], at any
    depth. *)
Theorem validate_null_free (rawEntry out : value) :
  validate rawEntry = Some out -> null_free out = true.
Proof.
  unfold validate. intros H.
  apply (parse_null_free (schema agents) rawEntry out). exact H.
Qed.

Lemma validate_null_free_witness :
  exists out, validate (VObj marcoAstro) = Some out /\ null_free out = true.
Proof.
  destruct (validate (VObj marcoAstro)) as [out|] eqn:Hv; [|vm_compute in Hv; discriminate].
  exists out. split; [reflexivity|].
  apply (validate_null_free (VObj marcoAstro) out Hv).
Defined.

(** ** Validating twice *)

(** X3.  [validate] is idempotent: the record it returns is a valid entry
    and validates to itself, defaults included. *)
Theorem validate_idempotent (rawEntry out : value) :
  validate rawEntry = Some out -> validate out = Some out.
Proof.
  unfold validate. intros H.
  apply (parse_idem (schema agents) agents_wf rawEntry out). exact H.
Qed.

Lemma validate_idempotent_witness :
  exists out, validate (VObj marcoAstro) = Some out /\ validate out = Some out.
Proof.
  destruct (validate (VObj marcoAstro)) as [out|] eqn:Hv; [|vm_compute in Hv; discriminate].
  exists out. split; [reflexivity|].
  apply (validate_idempotent (VObj marcoAstro) out Hv).
Defined.

(** ** Exactly the defects are refused *)

(** X4.  [validate] refuses an entry if and only if the entry has a defect:
    a value of the wrong type or a missing value at a key of the schema, at
    any depth.  Nothing else makes an entry invalid. *)
Theorem validate_None_iff_defect (rawEntry : value) :
  validate rawEntry = None <-> defect (schema agents) rawEntry.
Proof.
  split.
  - apply parse_None_defect. exact agents_wf.
  - apply defect_refused.
Qed.

(** ** The order of the keys of an entry *)

Lemma get_In (props : list (string * value)) (k : string) (v : value) :
  NoDup (map fst props) -> In (k, v) props -> get k props = v.
Proof.
  induction props as [|[k0 v0] props IH]; intros ND Hin; [destruct Hin|].
  inversion ND as [|? ? Hnotin ND']; subst. simpl.
  destruct Hin as [Heq|Hin].
  - injection Heq as -> ->. rewrite String.eqb_refl. reflexivity.
  - destruct (String.eqb k k0) eqn:E; [|auto].
    apply String.eqb_eq in E. subst k0. elim Hnotin.
    apply in_map_iff. exists (k, v). auto.
Qed.

Lemma has_perm (props props' : list (string * value)) (k : string) :
  Permutation props props' -> has k props = has k props'.
Proof.
  intros HP. destruct (has k props) eqn:E, (has k props') eqn:E'; try reflexivity.
  - apply has_In in E. apply (Permutation_in _ (Permutation_map fst HP)) in E.
    apply has_In in E. congruence.
  - apply has_In in E'. apply (Permutation_in _ (Permutation_map fst (Permutation_sym HP))) in E'.
    apply has_In in E'. congruence.
Qed.

Lemma get_perm (props props' : list (string * value)) (k : string) :
  NoDup (map fst props) -> Permutation props props' -> get k props = get k props'.
Proof.
  intros ND HP.
  assert (NoDup (map fst props')) as ND'.
  { eapply Permutation_NoDup; [apply Permutation_map; exact HP|exact ND]. }
  destruct (has k props) eqn:E.
  - apply has_In, in_map_iff in E as ([k' v] & <- & Hin). simpl.
    rewrite (get_In _ _ _ ND Hin).
    symmetry. apply get_In; [assumption|]. eapply Permutation_in; eassumption.
  - rewrite (has_false_get _ _ E). rewrite (has_perm _ _ k HP) in E.
    rewrite (has_false_get _ _ E). reflexivity.
Qed.

(** X5.  The order in which an entry lists its keys does not matter:
    two entries with the same bindings, each key bound once, validate
    alike. *)
Theorem validate_key_order (props props' : list (string * value)) :
  NoDup (map fst props) -> Permutation props props' ->
  validate (VObj props) = validate (VObj props').
Proof.
  intros ND HP. apply parse_object_ext. intros k _. split.
  - apply get_perm; assumption.
  - apply has_perm. assumption.
Qed.

Lemma validate_key_order_witness :
  validate (VObj marcoAstro) = validate (VObj (rev marcoAstro)).
Proof.
  apply validate_key_order.
  - apply distinct_NoDup. vm_compute. reflexivity.
  - apply Permutation_rev.
Defined.

(** ** The keys of the returned record *)

Lemma fields_shown (props : list (string * value)) (shape : list (string * Zod.schema))
    (fields : list (string * value)) :
  all_some (map (parse_field parse props) shape) = Some fields ->
  map fst (filter (keep props) fields) = map fst (filter (shows props) shape).
Proof.
  revert fields. induction shape as [|[k sk] shape IH]; intros fields H.
  - simpl in H. injection H as <-. reflexivity.
  - simpl in H. destruct (parse sk (get k props)) as [r|] eqn:Er; simpl in H; [|discriminate].
    destruct (all_some (map (parse_field parse props) shape)) as [rest|] eqn:E; [|discriminate].
    injection H as <-. specialize (IH rest eq_refl). simpl.
    assert (keep props (k, r) = shows props (k, sk)) as ->.
    { unfold keep, shows. simpl. destruct (has k props) eqn:Eh.
      - apply orb_true_r.
      - rewrite (has_false_get _ _ Eh) in Er. rewrite Er, orb_false_r.
        destruct r; reflexivity. }
    destruct (shows props (k, sk)); simpl; rewrite IH; reflexivity.
Qed.

(** X6.  The record that [validate] returns has the keys of the schema in
    the order of the schema, whatever the order in the entry: all of them,
    except [emoji] and [mcpTools] when the entry does not have them. *)
Theorem validate_keys (props : list (string * value)) (out : value) :
  validate (VObj props) = Some out ->
  exists fields,
    out = VObj fields /\
    map fst fields =
      filter (fun k => negb (existsb (String.eqb k) optionalKeys) || has k props)
        agentKeys.
Proof.
  intros H. apply parse_object_inv in H as (props' & fields & Heq & Hf & ->).
  injection Heq as <-. exists (filter (keep props) fields). split; [reflexivity|].
  rewrite (fields_shown _ _ _ Hf). unfold shows, agentKeys, agentShape. simpl.
  rewrite !orb_true_r, !orb_false_r.
  destruct (has "emoji" props), (has "mcpTools" props); reflexivity.
Qed.

Lemma validate_keys_witness :
  exists fields,
    validate (VObj (("order", VNum (1 # 1)) :: ("emoji", VStr "*") :: marcoAstro))
      = Some (VObj fields) /\
    map fst fields =
      ["name"; "slug"; "tagline"; "description"; "accentColor"; "emoji"; "about";
       "specialties"; "skills"; "useCases"; "codeExamples"; "does"; "doesNot";
       "philosophy"; "draft"; "order"].
Proof.
  destruct (validate (VObj (("order", VNum (1 # 1)) :: ("emoji", VStr "*") :: marcoAstro)))
    as [out|] eqn:Hv; [|vm_compute in Hv; discriminate].
  destruct (validate_keys _ out Hv) as (fields & -> & K).
  exists fields. split; [reflexivity|]. rewrite K. vm_compute. reflexivity.
Defined.

(** ** Values that pass unchanged *)

Lemma parse_plain_id (s : Zod.schema) :
  plain s = true -> forall x v, parse s x = Some v -> v = x.
Proof.
  induction s as [| | |item IH|shape IH|inner IH|inner dflt IH] using schema_ind;
    intros Hp x v H; simpl in Hp; try discriminate.
  - destruct x; simpl in H; try discriminate. injection H as <-. reflexivity.
  - destruct x; simpl in H; try discriminate. injection H as <-. reflexivity.
  - destruct x; simpl in H; try discriminate. injection H as <-. reflexivity.
  - apply parse_array_inv in H as (l & l' & -> & -> & F2).
    f_equal. symmetry. apply Forall2_eq.
    eapply Forall2_weaken_In; [exact F2|].
    intros a b _ _ Hab. simpl in Hab. symmetry. apply (IH Hp a b Hab).
  - destruct x; simpl in H; try (apply (IH Hp _ _ H)).
    injection H as <-. reflexivity.
Qed.

Lemma parse_flat_id (s : Zod.schema) :
  flat s = true -> forall x v, parse s x = Some v -> x <> VUndef -> v = x.
Proof.
  intros Hf x v H Hx. destruct s; try (apply (parse_plain_id _ Hf _ _ H)).
  simpl in Hf. destruct x; simpl in H; try (apply (parse_plain_id _ Hf _ _ H)).
  contradiction.
Qed.

Lemma flatKeys_flat (k : string) :
  In k flatKeys -> exists sk, In (k, sk) agentShape /\ flat sk = true.
Proof.
  intros Hk. simpl in Hk.
  repeat (destruct Hk as [<-|Hk]; [
    match goal with
    | |- exists sk, In (?k, sk) _ /\ _ =>
        let o := eval vm_compute in (shape_get k agentShape) in
        match o with
        | Some ?s => exists s; split; [simpl; tauto|reflexivity]
        end
    end|]).
  destruct Hk.
Qed.

(** X7.  [validate] returns the values of the entry as they are at the keys
    whose schema has no object in it (the strings, the arrays of strings,
    [draft] and [order]): a value that is given is never replaced, not even
    by a default. *)
Theorem validate_keeps_values (props : list (string * value)) (out : value) (k : string) :
  In k flatKeys ->
  validate (VObj props) = Some out ->
  get k props <> VUndef ->
  exists fields, out = VObj fields /\ get k fields = get k props.
Proof.
  intros Hk H Hx. destruct (flatKeys_flat k Hk) as (sk & Hks & Hflat).
  apply validate_inv in H as (props' & fields & Heq & -> & G & _).
  injection Heq as <-. exists fields. split; [reflexivity|].
  destruct (G k sk Hks) as (r & Pr & ->).
  apply (parse_flat_id sk Hflat _ _ Pr Hx).
Qed.

Lemma validate_keeps_values_witness :
  exists fields,
    validate (VObj (("draft", VBool true) :: marcoAstro)) = Some (VObj fields) /\
    get "draft" fields = VBool true.
Proof.
  destruct (validate (VObj (("draft", VBool true) :: marcoAstro))) as [out|] eqn:Hv;
    [|vm_compute in Hv; discriminate].
  destruct (validate_keeps_values (("draft", VBool true) :: marcoAstro) out "draft")
    as (fields & -> & G).
  - simpl. tauto.
  - exact Hv.
  - simpl. discriminate.
  - exists fields. split; [reflexivity|exact G].
Defined.

(** ** Arrays of objects *)

(** X8.  At [skills], [useCases] and [codeExamples] the returned record has
    an array of the length of the entry's, whose i-th item is the i-th item
    of the entry parsed with the schema of the items: no item is dropped,
    added or moved. *)
Theorem validate_items (props : list (string * value)) (out : value)
    (k : string) (item : Zod.schema) :
  In (k, item) itemSchemas ->
  validate (VObj props) = Some out ->
  exists fields l l',
    out = VObj fields /\
    get k props = VArr l /\ get k fields = VArr l' /\
    List.length l' = List.length l /\
    forall i a, nth_error l i = Some a ->
      exists b, nth_error l' i = Some b /\ parse item a = Some b.
Proof.
  intros Hk H.
  apply validate_inv in H as (props' & fields & Heq & -> & G & _).
  injection Heq as <-.
  assert (In (k, ZArray item) agentShape) as Hks.
  { simpl in Hk. destruct Hk as [Heq|[Heq|[Heq|[]]]]; injection Heq as <- <-;
      simpl; tauto. }
  destruct (G k (ZArray item) Hks) as (r & Pr & Gr).
  apply parse_array_inv in Pr as (l & l' & Hl & -> & F2).
  exists fields, l, l'. repeat split; try assumption.
  - symmetry. eapply Forall2_length. exact F2.
  - intros i a Ha. apply (Forall2_nth_error_l _ _ _ F2 i a Ha).
Qed.

Lemma validate_items_witness :
  exists fields l',
    validate (VObj marcoAstro) = Some (VObj fields) /\
    get "skills" fields = VArr l' /\ List.length l' = 2.
Proof.
  destruct (validate (VObj marcoAstro)) as [out|] eqn:Hv; [|vm_compute in Hv; discriminate].
  destruct (validate_items marcoAstro out "skills" skillSchema)
    as (fields & l & l' & -> & Hl & Hl' & Hlen & _).
  - simpl. tauto.
  - exact Hv.
  - exists fields, l'. split; [reflexivity|]. split; [exact Hl'|].
    rewrite Hlen. vm_compute in Hl. injection Hl as <-. reflexivity.
Defined.

(** ** The schemas of the items *)

Lemma two_strings_exact (a b : string) (x v : value) :
  parse (ZObject [(a, ZString); (b, ZString)]) x = Some v <->
  exists p sa sb,
    x = VObj p /\ get a p = VStr sa /\ get b p = VStr sb /\
    v = VObj [(a, VStr sa); (b, VStr sb)].
Proof.
  split.
  - destruct x as [| | | | | |p]; try (simpl; discriminate).
    rewrite parse_object. simpl.
    destruct (get a p) as [| | | |sa| |] eqn:Ea; simpl; try discriminate.
    destruct (get b p) as [| | | |sb| |] eqn:Eb; simpl; try discriminate.
    intros H. injection H as <-. exists p, sa, sb. auto.
  - intros (p & sa & sb & -> & Ea & Eb & ->).
    rewrite parse_object. simpl. rewrite Ea, Eb. reflexivity.
Qed.

(** X9.  [skillSchema] accepts exactly the objects whose [name] and
    [description] are strings, and returns the object made of these two
    keys, in this order, and nothing else; [useCaseSchema] does the same
    with [title] and [description]. *)
Theorem skill_useCase_exact (x v : value) :
  (parse skillSchema x = Some v <->
   exists p n d,
     x = VObj p /\ get "name" p = VStr n /\ get "description" p = VStr d /\
     v = VObj [("name", VStr n); ("description", VStr d)]) /\
  (parse useCaseSchema x = Some v <->
   exists p t d,
     x = VObj p /\ get "title" p = VStr t /\ get "description" p = VStr d /\
     v = VObj [("title", VStr t); ("description", VStr d)]).
Proof.
  split.
  - unfold skillSchema. apply two_strings_exact.
  - unfold useCaseSchema. apply two_strings_exact.
Qed.

(** X10.  [codeExampleSchema] accepts exactly the objects whose [title] and
    [code] are strings and whose [lang] is a string or [undefined]; it
    returns the object made of [title], [code] and [lang], the given [lang]
    when there is one and ["bash"] otherwise. *)
Theorem codeExample_exact (x v : value) :
  parse codeExampleSchema x = Some v <->
  exists p t c l,
    x = VObj p /\ get "title" p = VStr t /\ get "code" p = VStr c /\
    (get "lang" p = VStr l \/ get "lang" p = VUndef /\ l = "bash") /\
    v = VObj [("title", VStr t); ("code", VStr c); ("lang", VStr l)].
Proof.
  split.
  - destruct x as [| | | | | |p]; try (simpl; discriminate).
    unfold codeExampleSchema. rewrite parse_object. simpl.
    destruct (get "title" p) as [| | | |t| |] eqn:Et; simpl; try discriminate.
    destruct (get "code" p) as [| | | |c| |] eqn:Ec; simpl; try discriminate.
    destruct (get "lang" p) as [| | | |l| |] eqn:El; simpl; try discriminate;
      intros H; injection H as <-.
    + exists p, t, c, "bash". auto 10.
    + exists p, t, c, l. auto 10.
  - intros (p & t & c & l & -> & Et & Ec & [El|[El ->]] & ->);
      unfold codeExampleSchema; rewrite parse_object; simpl;
      rewrite Et, Ec, El; reflexivity.
Qed.

(** ** [SITE] *)

(** X11.  [SITE.url] is never the empty string: it is the configured site
    when there is one and it is not empty, and [https://sqwad.dev] when the
    site is not configured or is the empty string. *)
Theorem SITE_url (env : option string) :
  Site.url (SITE env) <> "" /\
  (forall s, env = Some s -> s <> "" -> Site.url (SITE env) = s) /\
  (env = None \/ env = Some "" -> Site.url (SITE env) = "https://sqwad.dev").
Proof.
  split; [|split].
  - destruct env as [[|c s]|]; simpl; discriminate.
  - intros s -> Hs. destruct s; [contradiction|reflexivity].
  - intros [->| ->]; reflexivity.
Qed.

(** ** [philosophy] *)

Lemma parse_strings_inv (x v : value) :
  parse (ZArray ZString) x = Some v ->
  v = x /\ exists l, x = VArr (map VStr l).
Proof.
  intros H. split; [apply (parse_plain_id (ZArray ZString) eq_refl _ _ H)|].
  apply parse_array_inv in H as (l & l' & -> & _ & F2).
  induction F2 as [|a b l l' Hab _ (ss & IH)].
  - exists []. reflexivity.
  - apply parse_string_inv in Hab as (s & -> & _). injection IH as ->.
    exists (s :: ss). reflexivity.
Qed.

(** X12.  The [philosophy] of a valid entry is an object whose [quote] is a
    string and whose [explanation] is an array of strings, and the returned
    record has these two and nothing else under [philosophy], whatever other
    keys the entry has there. *)
Theorem validate_philosophy (props : list (string * value)) (out : value) :
  validate (VObj props) = Some out ->
  exists fields p q e,
    out = VObj fields /\
    get "philosophy" props = VObj p /\
    get "quote" p = VStr q /\ get "explanation" p = VArr (map VStr e) /\
    get "philosophy" fields =
      VObj [("quote", VStr q); ("explanation", VArr (map VStr e))].
Proof.
  intros H. apply validate_inv in H as (props' & fields & Heq & -> & G & _).
  injection Heq as <-.
  destruct (G "philosophy"
              (ZObject [("quote", ZString); ("explanation", ZArray ZString)]))
    as (r & Pr & Gr); [simpl; tauto|].
  destruct (get "philosophy" props) as [| | | | | |p]; try (simpl in Pr; discriminate).
  rewrite parse_object in Pr. cbn [map parse_field] in Pr.
  destruct (parse ZString (get "quote" p)) as [r1|] eqn:E1; [|discriminate].
  destruct (parse (ZArray ZString) (get "explanation" p)) as [r2|] eqn:E2;
    [|discriminate].
  apply parse_string_inv in E1 as (q & Eq & ->).
  apply parse_strings_inv in E2 as (-> & e & Ee).
  cbn in Pr. injection Pr as <-. rewrite Ee in Gr.
  exists fields, p, q, e. auto 10.
Qed.

Lemma validate_philosophy_witness :
  exists fields,
    validate (VObj (("philosophy",
                      VObj [("author", VStr "Marco"); ("quote", VStr "x");
                            ("explanation", VArr [VStr "y"])]) :: marcoAstro))
      = Some (VObj fields) /\
    get "philosophy" fields =
      VObj [("quote", VStr "x"); ("explanation", VArr [VStr "y"])].
Proof.
  destruct (validate (VObj (("philosophy",
                      VObj [("author", VStr "Marco"); ("quote", VStr "x");
                            ("explanation", VArr [VStr "y"])]) :: marcoAstro)))
    as [out|] eqn:Hv; [|vm_compute in Hv; discriminate].
  destruct (validate_philosophy _ out Hv) as (fields & p & q & e & -> & Hp & Hq & He & G).
  exists fields. split; [reflexivity|].
  rewrite G. simpl in Hp. injection Hp as <-.
  simpl in Hq, He. injection Hq as <-. rewrite <- He. reflexivity.
Defined.
